(** * useTranslation: the translation provider, its helpers and build scripts

    A shallow embedding of
    - [src/contexts/TranslationContext.tsx] (the [TranslationProvider]
      component: hook state, [loadTranslationsForNamespaces],
      [loadNamespaces], the language effect and [t]),
    - [src/hooks/useTranslation.ts] (the hook and its wrapper of [t]),
    - [src/utils/languageConfig.ts] ([createLanguageConfig],
      [COMMON_LANGUAGES]),
    - [utils/translationHelpers] ([formatPlural], [interpolate],
      [formatRelativeTime], [hasTranslationKey]),
    - [scripts/translationTypes.js] ([generateTranslationTypes],
      [generateInterfaceProperties], [generateDefaultTranslations]) and
    - [scripts/hashTranslations.js] ([generateHash], [hashTranslations],
      [generateTSManifest], over a model of the file system),
    followed by the properties established about them.

    A React component is modelled by its state cells, the closures of one
    render being functions of the cells they captured; an [async] function
    by the invocations suspended at their [await]; what leaves the
    component ([fetch], [console.error], [localStorage]) is recorded. *)

From Stdlib Require Import ZArith Ascii String Lia.
From stdpp Require Import gmap strings list pretty.

Local Open Scope Z_scope.

(** ** JavaScript values *)

Set Warnings "-register-all,-clear-no-such-hyp".

Module JS.

(** The values that translation data can hold: what [JSON.parse] returns,
    plus [undefined].  An object lists its own enumerable properties in
    the order [Object.entries] yields them, one entry per key.  Numbers
    carry an integer: the code below only asks a number for its type and
    its truthiness.  A string is a sequence of characters; lengths and
    indices agree with JavaScript's on ASCII text. *)
Inductive value : Type :=
| Undefined
| Null
| Bool (b : bool)
| Number (n : Z)
| Str (s : string)
| Array (items : list value)
| Object (props : list (string * value)).

(** [ToBoolean]: what [if (v)], [!v] and [a && b] test. *)
Definition truthy (v : value) : bool :=
  match v with
  | Undefined | Null => false
  | Bool b => b
  | Number n => negb (n =? 0)
  | Str s => negb (String.eqb s "")
  | Array _ | Object _ => true
  end.

(** [typeof v === 'object' && v !== null] *)
Definition is_object (v : value) : bool :=
  match v with Array _ | Object _ => true | _ => false end.

(** Own property of an object literal. *)
Fixpoint own (k : string) (props : list (string * value)) : option value :=
  match props with
  | [] => None
  | (k', v) :: rest => if String.eqb k k' then Some v else own k rest
  end.

Definition is_digit (c : ascii) : bool :=
  let n := nat_of_ascii c in (48 <=? n)%nat && (n <=? 57)%nat.

Fixpoint digits_value (acc : nat) (s : string) : option nat :=
  match s with
  | EmptyString => Some acc
  | String c s' =>
      if is_digit c
      then digits_value (10 * acc + (nat_of_ascii c - 48))%nat s'
      else None
  end.

(** A property key that is a canonical array index: ["0"], or decimal
    digits without a leading zero. *)
Definition array_index (k : string) : option nat :=
  match k with
  | EmptyString => None
  | String "0" EmptyString => Some 0%nat
  | String "0" _ => None
  | _ => digits_value 0 k
  end.

(** [v[k]].  [None] stands for the [TypeError] raised when [v] is
    [undefined] or [null].  A string has its [length] and one
    single-character string per index; so does an array with its items.
    Properties inherited from the built-in prototypes (all functions)
    are left out. *)
Definition get (v : value) (k : string) : option value :=
  match v with
  | Undefined | Null => None
  | Bool _ | Number _ => Some Undefined
  | Str s =>
      if String.eqb k "length" then Some (Number (Z.of_nat (String.length s)))
      else match array_index k with
           | Some i =>
               match String.get i s with
               | Some c => Some (Str (String c EmptyString))
               | None => Some Undefined
               end
           | None => Some Undefined
           end
  | Array items =>
      if String.eqb k "length" then Some (Number (Z.of_nat (length items)))
      else match array_index k with
           | Some i => Some (nth i items Undefined)
           | None => Some Undefined
           end
  | Object props => Some (default Undefined (own k props))
  end.

(** [s.split(sep)] for a one-character separator. *)
Fixpoint split (sep : ascii) (s : string) : list string :=
  match s with
  | EmptyString => [EmptyString]
  | String c s' =>
      if Ascii.eqb c sep then EmptyString :: split sep s'
      else match split sep s' with
           | [] => [String c EmptyString]
           | piece :: pieces => String c piece :: pieces
           end
  end.

(** [m[k]] on a record used as a dictionary: a missing key reads as
    [undefined]. *)
Definition index (m : gmap string value) (k : string) : value :=
  default Undefined (m !! k).

(** The data model's reading of a key path in a translation tree: follow
    the keys through nested dictionaries down to a string leaf. *)
Fixpoint leaf_at (tree : value) (path : list string) : option string :=
  match path with
  | [] => match tree with Str s => Some s | _ => None end
  | k :: path =>
      match tree with
      | Object props => v ← own k props; leaf_at v path
      | _ => None
      end
  end.



End JS.

(** ** The provider: [src/contexts/TranslationContext.tsx] *)

Module Provider.

(** [TranslationProviderProps], without [children]. *)
Record Props : Type := {
  defaultLanguage : string;
  defaultTranslations : gmap string JS.value;
  translationManifest : gmap string string;
  isSupportedLanguage : string → bool;
  localesPath : string;
  localesHashedPath : string
}.

(** The four [useState] cells.  A value of this type is also what the
    closures built during one render ([t], [loadNamespaces],
    [loadTranslationsForNamespaces], the effects) have captured. *)
Record Hooks : Type := {
  language : string;
  translations : gmap string JS.value;
  loadedNamespaces : gset string;
  isLoading : bool
}.

(** The outcome of [await fetch(url)] followed by [await response.json()]. *)
Inductive Response : Type :=
| NetworkError                (* [fetch] rejects *)
| NotOk                       (* [response.ok] is false *)
| OkJson (data : JS.value)    (* [response.json()] resolves *)
| OkBadJson.                  (* [response.json()] rejects *)

(** One call of [fetch]: the url, and the pair it was built for. *)
Record Request : Type := {
  req_language : string;
  req_namespace : string;
  req_url : string
}.

(** An invocation of [loadTranslationsForNamespaces] suspended at the
    [await] of line 124: the language its closure captured, the namespace
    being fetched, the rest of [namespacesToLoad], and [newTranslations]. *)
Record Task : Type := {
  task_language : string;
  task_namespace : string;
  task_rest : list string;
  newTranslations : gmap string JS.value
}.

(** Everything the component can touch.  [hooks] holds the cells with every
    queued update applied (each update is a value or a function of the
    previous state, so applying them on arrival gives what the next render
    reads); [closure] is the render whose [t] and [loadNamespaces] the
    consumers currently hold. *)
Record World : Type := {
  hooks : Hooks;
  closure : Hooks;
  tasks : list Task;
  network : list Request;
  console : list string;
  localStorage : gmap string string
}.

Definition with_hooks (h : Hooks) (w : World) : World :=
  {| hooks := h; closure := closure w; tasks := tasks w;
     network := network w; console := console w;
     localStorage := localStorage w |}.

Definition with_closure (r : Hooks) (w : World) : World :=
  {| hooks := hooks w; closure := r; tasks := tasks w;
     network := network w; console := console w;
     localStorage := localStorage w |}.

Definition with_tasks (ts : list Task) (w : World) : World :=
  {| hooks := hooks w; closure := closure w; tasks := ts;
     network := network w; console := console w;
     localStorage := localStorage w |}.

Definition fetch (rq : Request) (w : World) : World :=
  {| hooks := hooks w; closure := closure w; tasks := tasks w;
     network := network w ++ [rq]; console := console w;
     localStorage := localStorage w |}.

Definition console_error (msg : string) (w : World) : World :=
  {| hooks := hooks w; closure := closure w; tasks := tasks w;
     network := network w; console := console w ++ [msg];
     localStorage := localStorage w |}.

Definition localStorage_setItem (k v : string) (w : World) : World :=
  {| hooks := hooks w; closure := closure w; tasks := tasks w;
     network := network w; console := console w;
     localStorage := <[k := v]> (localStorage w) |}.

Definition setLanguage (lang : string) (w : World) : World :=
  with_hooks {| language := lang;
                translations := translations (hooks w);
                loadedNamespaces := loadedNamespaces (hooks w);
                isLoading := isLoading (hooks w) |} w.

Definition setTranslations
    (f : gmap string JS.value → gmap string JS.value) (w : World) : World :=
  with_hooks {| language := language (hooks w);
                translations := f (translations (hooks w));
                loadedNamespaces := loadedNamespaces (hooks w);
                isLoading := isLoading (hooks w) |} w.

Definition setLoadedNamespaces
    (f : gset string → gset string) (w : World) : World :=
  with_hooks {| language := language (hooks w);
                translations := translations (hooks w);
                loadedNamespaces := f (loadedNamespaces (hooks w));
                isLoading := isLoading (hooks w) |} w.

Definition setIsLoading (b : bool) (w : World) : World :=
  with_hooks {| language := language (hooks w);
                translations := translations (hooks w);
                loadedNamespaces := loadedNamespaces (hooks w);
                isLoading := b |} w.

Section WithProps.

Context (P : Props).

(** Lines 74-82, in a browser ([window] is defined). *)
Definition getInitialLanguage (storage : gmap string string) : string :=
  match storage !! "language" with
  | Some savedLanguage =>
      if negb (String.eqb savedLanguage "") && isSupportedLanguage P savedLanguage
      then savedLanguage
      else defaultLanguage P
  | None => defaultLanguage P
  end.

(** Lines 113-121: the url for one namespace. *)
Definition fetch_url (language namespace : string) : string :=
  let url := localesPath P +:+ "/" +:+ language +:+ "/" +:+ namespace +:+ ".json" in
  let manifestKey := language +:+ "/" +:+ namespace in
  match translationManifest P !! manifestKey with
  | Some hashedFilename =>
      if negb (String.eqb hashedFilename "")
      then localesHashedPath P +:+ "/" +:+ hashedFilename
      else url
  | None => url
  end.

Definition request (language namespace : string) : Request :=
  {| req_language := language; req_namespace := namespace;
     req_url := fetch_url language namespace |}.

(** Every request on the network was built by [request]. *)
Definition built (rq : Request) : Prop :=
  rq = request (req_language rq) (req_namespace rq).

(** Lines 148-153: the merge after the loop and the [finally] block. *)
Definition finish (new : gmap string JS.value) (w : World) : World :=
  setIsLoading false (setTranslations (λ prev, new ∪ prev) w).

(** Lines 101-154 up to the first [await]: nothing for the default
    language; otherwise [isLoading] is raised and the first fetch is
    issued, or, for an empty list, the whole body runs at once. *)
Definition loadTranslationsForNamespaces
    (r : Hooks) (namespacesToLoad : list string) (w : World) : World :=
  if decide (language r = defaultLanguage P) then w
  else
    let w := setIsLoading true w in
    match namespacesToLoad with
    | [] => finish ∅ w
    | namespace :: rest =>
        let w := fetch (request (language r) namespace) w in
        with_tasks (tasks w ++ [{| task_language := language r;
                                   task_namespace := namespace;
                                   task_rest := rest;
                                   newTranslations := ∅ |}]) w
    end.

(** Lines 125-145: what is stored under the namespace, and what is logged. *)
Definition settle (namespace : string) (resp : Response) (w : World)
    : JS.value * World :=
  match resp with
  | OkJson data => (data, w)
  | NotOk => (JS.index (defaultTranslations P) namespace, w)
  | NetworkError | OkBadJson =>
      (JS.index (defaultTranslations P) namespace,
       console_error ("Failed to load translation for " +:+ namespace +:+ ":") w)
  end.

(** The [i]-th suspended invocation resumes with the response to its
    fetch: it records the namespace's entry, then either issues the next
    fetch of its loop or leaves the loop and finishes. *)
Definition resume (i : nat) (resp : Response) (w : World) : World :=
  match tasks w !! i with
  | None => w
  | Some task =>
      let '(data, w) := settle (task_namespace task) resp w in
      let new := <[task_namespace task := data]> (newTranslations task) in
      match task_rest task with
      | [] => finish new (with_tasks (delete i (tasks w)) w)
      | namespace :: rest =>
          let w := fetch (request (task_language task) namespace) w in
          with_tasks (<[i := {| task_language := task_language task;
                                task_namespace := namespace;
                                task_rest := rest;
                                newTranslations := new |}]> (tasks w)) w
      end
  end.

(** Lines 166-177. *)
Definition loadNamespaces
    (r : Hooks) (namespaces : list string) (w : World) : World :=
  let newNamespaces :=
    filter (λ ns, ns ∉ loadedNamespaces r) namespaces in
  if (0 <? length newNamespaces)%nat then
    let w := setLoadedNamespaces (λ prev, prev ∪ list_to_set newNamespaces) w in
    loadTranslationsForNamespaces r newNamespaces w
  else w.

(** Lines 94-98. *)
Definition storageEffect (r : Hooks) (w : World) : World :=
  localStorage_setItem "language" (language r) w.

(** Lines 180-190.  [elements] lists the set in an order of its own,
    where the source follows the order of insertion; the batch holds the
    same namespaces. *)
Definition languageEffect (r : Hooks) (w : World) : World :=
  if decide (language r = defaultLanguage P)
  then setTranslations (λ _, defaultTranslations P) w
  else
    let namespacesToLoad := elements (loadedNamespaces r) in
    loadTranslationsForNamespaces r namespacesToLoad w.

(** Lines 220-225: the loop over [keyPath] and the final test.  [None] is
    a [TypeError] escaping to the [catch]. *)
Fixpoint walk (key : string) (value : JS.value) (keyPath : list string)
    : option string :=
  match keyPath with
  | [] => Some (match value with JS.Str s => s | _ => key end)
  | k :: keyPath =>
      match value with
      | JS.Undefined => Some key
      | _ => match JS.get value k with
             | Some value => walk key value keyPath
             | None => None
             end
      end
  end.

(** Lines 212-225. *)
Definition lookup (r : Hooks) (key namespace : string) : option string :=
  let keyPath := JS.split "." key in
  let value := JS.index (translations r) namespace in
  let value :=
    if negb (JS.truthy value) && JS.truthy (JS.index (defaultTranslations P) namespace)
    then JS.index (defaultTranslations P) namespace
    else value in
  walk key value keyPath.

(** Lines 193-232.  The namespace is explicit; a caller that leaves it
    out passes ["common"]. *)
Definition t (r : Hooks) (key namespace : string) (w : World)
    : World * string :=
  let w :=
    if decide (namespace ∈ loadedNamespaces r) then w
    else
      let w := setLoadedNamespaces (λ prev, prev ∪ {[namespace]}) w in
      if decide (language r ≠ defaultLanguage P)
      then loadTranslationsForNamespaces r [namespace] w
      else w in
  match lookup r key namespace with
  | Some s => (w, s)
  | None =>
      (console_error ("Translation key not found: " +:+ namespace +:+ ":" +:+ key) w,
       key)
  end.

(** The first render: lines 84-91, then both effects. *)
Definition initialHooks (storage : gmap string string) : Hooks :=
  {| language := getInitialLanguage storage;
     translations := defaultTranslations P;
     loadedNamespaces := dom (defaultTranslations P);
     isLoading := false |}.

Definition runEffects (r : Hooks) (w : World) : World :=
  languageEffect r (storageEffect r w).

Definition mount (storage : gmap string string) : World :=
  let r := initialHooks storage in
  runEffects r {| hooks := r; closure := r; tasks := []; network := [];
                  console := []; localStorage := storage |}.

(** A later render: the closures are rebuilt from the cells; both effects
    depend on [language] (their other dependencies are props, which the
    parent passes unchanged) and run when it differs from the previous
    render's. *)
Definition render (w : World) : World :=
  let r := hooks w in
  let changed := bool_decide (language r ≠ language (closure w)) in
  let w := with_closure r w in
  if changed then runEffects r w else w.

(** What can happen to a mounted provider. *)
Inductive Event : Type :=
| Render
| CallT (key namespace : string)
| CallLoadNamespaces (namespaces : list string)
| CallSetLanguage (lang : string)
| Respond (i : nat) (resp : Response).

Definition step (w : World) (e : Event) : World :=
  match e with
  | Render => render w
  | CallT key namespace => fst (t (closure w) key namespace w)
  | CallLoadNamespaces namespaces => loadNamespaces (closure w) namespaces w
  | CallSetLanguage lang => setLanguage lang w
  | Respond i resp => resume i resp w
  end.

Definition run (w : World) (es : list Event) : World := foldl step w es.

(** *** Notions used in the statements *)

(** What a response leaves under its namespace, and what it logs. *)
Definition entry (namespace : string) (resp : Response) : JS.value :=
  match resp with
  | OkJson data => data
  | NetworkError | NotOk | OkBadJson => JS.index (defaultTranslations P) namespace
  end.

Definition logged (namespace : string) (resp : Response) : list string :=
  match resp with
  | NetworkError | OkBadJson =>
      ["Failed to load translation for " +:+ namespace +:+ ":"]
  | NotOk | OkJson _ => []
  end.

(** [newTranslations] after the responses [resps] to the fetches for
    [namespaces]. *)
Definition fill (namespaces : list string) (resps : list Response)
    (new : gmap string JS.value) : gmap string JS.value :=
  foldl (λ new nr, <[nr.1 := entry nr.1 nr.2]> new) new (zip namespaces resps).


(** The responses to the successive fetches of the [i]-th suspended
    invocation, delivered one after the other. *)
Definition respond_all (i : nat) (resps : list Response) (w : World) : World :=
  foldl (λ w resp, resume i resp w) w resps.

(** How many fetches for namespace [A] were issued, and how many the
    suspended invocations still have ahead of them in their loops. *)
Definition fetches (A : string) (w : World) : nat :=
  length (filter (λ rq, req_namespace rq = A) (network w)).




(** A response that makes the namespace fall back. *)
Definition failed (resp : Response) : bool :=
  match resp with
  | OkJson _ => false
  | NetworkError | NotOk | OkBadJson => true
  end.

(** Of the failures, those that reach the [catch] of line 135. *)
Definition thrown (resp : Response) : bool :=
  match resp with
  | NetworkError | OkBadJson => true
  | NotOk | OkJson _ => false
  end.


End WithProps.

End Provider.

(** ** The hook: [src/hooks/useTranslation.ts] *)

Module Hook.

Import Provider.

Section WithProps.

Context (P : Props).

(** Line 58, [namespace || namespaces[0]].  [None] is [undefined]: the
    argument left out, or the first element of an empty array; an empty
    string is falsy as well. *)
Definition nsToUse (namespaces : list string) (namespace : option string)
    : option string :=
  match namespace with
  | Some ns => if String.eqb ns "" then head namespaces else Some ns
  | None => head namespaces
  end.

(** Lines 50-62: the wrapper around the provider's [t].  The provider's
    function takes ['common'] for a namespace that is [undefined]. *)
Definition t (context : Hooks) (namespaces : list string)
    (key : string) (namespace : option string) (w : World) : World * string :=
  Provider.t P context key (default "common" (nsToUse namespaces namespace)) w.

(** Lines 45-47: the effect, run after the render that called the hook. *)
Definition effect (context : Hooks) (namespaces : list string) (w : World)
    : World :=
  loadNamespaces P context namespaces w.

(** Lines 33-65.  [None] is the error thrown outside of a provider;
    otherwise the hook hands out its [t], and its effect is queued. *)
Definition useTranslation (context : option Hooks) (namespaces : list string)
    : option ((string → option string → World → World * string)
              * (World → World)) :=
  match context with
  | None => None
  | Some context => Some (t context namespaces, effect context namespaces)
  end.

End WithProps.

End Hook.

(** ** Language configuration: [utils/languageConfig.ts] *)

Module LanguageConfig.

(** [LanguageConfig] of [types/languages.ts]. *)
Record LanguageConfig : Type := {
  code : string;
  name : string;
  nativeName : string
}.

Section Create.

(** The arguments of [createLanguageConfig]. *)
Context (languages : list LanguageConfig) (defaultLanguage : string).

(** Lines 30-34. *)
Definition isSupportedLanguage (lang : string) : bool :=
  existsb (λ l, String.eqb (code l) lang) languages.

(** Lines 39-41. *)
Definition getSupportedLanguageCodes : list string :=
  code <$> languages.

(** Lines 46-48.  [None] is [undefined]. *)
Definition getLanguageByCode (code' : string) : option LanguageConfig :=
  List.find (λ lang, String.eqb (code lang) code') languages.

(** Lines 53-55. *)
Definition getDefaultLanguage : string := defaultLanguage.

End Create.

(** Lines 71-92. *)
Definition COMMON_LANGUAGES : list LanguageConfig := [
  {| code := "en"; name := "English"; nativeName := "English" |};
  {| code := "es"; name := "Spanish"; nativeName := "Español" |};
  {| code := "fr"; name := "French"; nativeName := "Français" |};
  {| code := "de"; name := "German"; nativeName := "Deutsch" |};
  {| code := "it"; name := "Italian"; nativeName := "Italiano" |};
  {| code := "pt"; name := "Portuguese"; nativeName := "Português" |};
  {| code := "ja"; name := "Japanese"; nativeName := "日本語" |};
  {| code := "ko"; name := "Korean"; nativeName := "한국어" |};
  {| code := "zh"; name := "Chinese"; nativeName := "中文" |};
  {| code := "ar"; name := "Arabic"; nativeName := "العربية" |};
  {| code := "hi"; name := "Hindi"; nativeName := "हिंदी" |};
  {| code := "bn"; name := "Bengali"; nativeName := "বাংলা" |};
  {| code := "id"; name := "Indonesian"; nativeName := "Bahasa Indonesia" |};
  {| code := "ms"; name := "Malay"; nativeName := "Bahasa Melayu" |};
  {| code := "th"; name := "Thai"; nativeName := "ไทย" |};
  {| code := "tr"; name := "Turkish"; nativeName := "Türkçe" |};
  {| code := "ru"; name := "Russian"; nativeName := "Русский" |};
  {| code := "pl"; name := "Polish"; nativeName := "Polski" |};
  {| code := "nl"; name := "Dutch"; nativeName := "Nederlands" |};
  {| code := "sv"; name := "Swedish"; nativeName := "Svenska" |} ].

End LanguageConfig.

(** ** The helpers: [utils/translationHelpers] *)

Module Helpers.

(** The argument [count] of [formatPlural].  An integer is carried as
    such.  Any other number is carried with the text [String] gives for
    it: those digits come out of the floating-point printing algorithm,
    which is not reproduced here. *)
Inductive number : Type :=
| Integer (z : Z)
| NonInteger (text : string).

(** [count === 1] *)
Definition is_one (count : number) : bool :=
  match count with
  | Integer z => z =? 1
  | NonInteger _ => false
  end.

(** [String(count)] *)
Definition String_of (count : number) : string :=
  match count with
  | Integer z => pretty z
  | NonInteger text => text
  end.

(** [s.replace(/pat/g, rep)] for a pattern that is a plain non-empty word
    and a replacement without [$]: scan from the left, and after a match
    resume behind it.  [skip] counts the characters of a match still to be
    passed over. *)
Fixpoint replace_go (pat rep : string) (skip : nat) (s : string) : string :=
  match s with
  | EmptyString => EmptyString
  | String c s' =>
      match skip with
      | S skip => replace_go pat rep skip s'
      | O =>
          if String.prefix pat s
          then rep +:+ replace_go pat rep (String.length pat - 1) s'
          else String c (replace_go pat rep 0 s')
      end
  end.

Definition replace_global (pat rep s : string) : string :=
  replace_go pat rep 0 s.

(** Lines 49-54. *)
Definition formatPlural (count : number) (one other : string) : string :=
  if is_one count then one
  else replace_global "{{count}}" (String_of count) other.

(** *** Notions used in the statements *)

(** [s.split(pat)] for a non-empty word [pat], by the same scan: the
    pieces of [s] between the occurrences of [pat]. *)
Fixpoint split_go (pat : string) (skip : nat) (s : string) : list string :=
  match s with
  | EmptyString => [EmptyString]
  | String c s' =>
      match skip with
      | S skip => split_go pat skip s'
      | O =>
          if String.prefix pat s
          then EmptyString :: split_go pat (String.length pat - 1) s'
          else match split_go pat 0 s' with
               | [] => [String c EmptyString]
               | piece :: pieces => String c piece :: pieces
               end
      end
  end.

Definition split_word (pat s : string) : list string := split_go pat 0 s.

(** [skip] characters dropped from the front. *)
Fixpoint behind (skip : nat) (s : string) : string :=
  match skip, s with
  | S skip, String _ s => behind skip s
  | _, _ => s
  end.

(** [s] holds an occurrence of [pat]. *)
Definition occurs (pat s : string) : Prop :=
  ∃ before after, s = before +:+ pat +:+ after.

End Helpers.

(** ** The other helpers of [utils/translationHelpers] *)

Module TranslationHelpers.

Import Helpers.

(** *** [interpolate] *)

(** A value of [variables]: a string or a number. *)
Inductive variable : Type :=
| Text (s : string)
| Num (n : number).

(** [String(value)] *)
Definition String_value (value : variable) : string :=
  match value with
  | Text s => s
  | Num n => String_of n
  end.

Definition is_letter (c : ascii) : bool :=
  let n := nat_of_ascii c in
  ((65 <=? n) && (n <=? 90) || (97 <=? n) && (n <=? 122) || (n =? 95))%nat.

(** A key that reads as an identifier: a letter or an underscore, then
    letters, digits and underscores. *)
Definition identifier (key : string) : bool :=
  match key with
  | EmptyString => false
  | String c rest =>
      is_letter c
      && forallb (λ c, is_letter c || JS.is_digit c) (list_ascii_of_string rest)
  end.

(** [new RegExp(`{{${key}}}`, 'g')].  For an identifier the pattern has
    no operator in it (the braces around a word that is no number are
    ordinary characters) and matches the text [{{key}}] and nothing else.
    [None]: the key is no identifier; what its pattern matches, if it is
    a pattern at all, is not described here. *)
Definition RegExp (key : string) : option string :=
  if identifier key then Some ("{{" +:+ key +:+ "}}") else None.

(** The text put in place of one match by [replace], for a pattern
    without groups: in the replacement, [$$] stands for a dollar sign,
    [$&] for the match, [$`] for what precedes the match in the text
    searched and [$'] for what follows it; any other [$] stands for
    itself. *)
Fixpoint expand (matched before after replacement : string) : string :=
  match replacement with
  | EmptyString => EmptyString
  | String c rest =>
      if Ascii.eqb c "$" then
        match rest with
        | String "$" rest' => String "$" (expand matched before after rest')
        | String "&" rest' => matched +:+ expand matched before after rest'
        | String "`" rest' => before +:+ expand matched before after rest'
        | String "'" rest' => after +:+ expand matched before after rest'
        | _ => String "$" (expand matched before after rest)
        end
      else String c (expand matched before after rest)
  end.

(** [s.replace(/pat/g, replacement)] for a pattern that is a plain
    non-empty word: the scan of [replace_go], with the replacement
    expanded at each match.  [before] is the part of the text already
    passed. *)
Fixpoint replace_with (pat replacement before : string) (skip : nat)
    (s : string) : string :=
  match s with
  | EmptyString => EmptyString
  | String c s' =>
      let before' := before +:+ String c EmptyString in
      match skip with
      | S skip => replace_with pat replacement before' skip s'
      | O =>
          if String.prefix pat s
          then expand pat before (behind (String.length pat) s) replacement
               +:+ replace_with pat replacement before' (String.length pat - 1) s'
          else String c (replace_with pat replacement before' 0 s')
      end
  end.

(** Lines 29-31.  [variables] lists the entries of the object in the
    order of [Object.entries], which for keys that are identifiers is the
    order in which they were added. *)
Definition interpolate (text : string) (variables : list (string * variable))
    : option string :=
  foldl (λ result kv,
           result ← result;
           pat ← RegExp kv.1;
           Some (replace_with pat (String_value kv.2) EmptyString 0 result))
        (Some text) variables.

(** *** [formatRelativeTime] *)

(** A [Date]: its time value in milliseconds since the epoch, or the
    invalid date, whose [getTime()] is [NaN]. *)
Inductive Date : Type :=
| Valid (ms : Z)
| Invalid.

(** Lines 112-120. *)
Definition units : list (string * Z) := [
  ("year", 31536000);
  ("month", 2592000);
  ("week", 604800);
  ("day", 86400);
  ("hour", 3600);
  ("minute", 60);
  ("second", 1) ].

(** Lines 121-127: the loop.  It ends at the first unit of which the
    distance holds at least one, with that unit and the signed number
    given to [rtf.format]; [None] when it runs through. *)
Fixpoint pick (diffInSeconds : Z) (units : list (string * Z))
    : option (Z * string) :=
  match units with
  | [] => None
  | (unit, secondsInUnit) :: units =>
      let value := Z.abs diffInSeconds / secondsInUnit in
      if 1 <=? value
      then Some (if diffInSeconds <? 0 then value else - value, unit)
      else pick diffInSeconds units
  end.

Section Intl.

(** [new Intl.RelativeTimeFormat(locale, { numeric: 'auto' })
    .format(value, unit)]: the text is the runtime's; [None] when the
    constructor rejects the locale. *)
Context (rtf_format : string → Z → string → option string).

(** Lines 110-129, with [baseDate] given.  Time values are whole numbers
    of milliseconds; the quotients are the exact ones as long as the two
    dates are less than 2^53 milliseconds apart.  With an invalid date
    [diffInSeconds] is [NaN] and no comparison of the loop holds. *)
Definition formatRelativeTime (date : Date) (locale : string) (baseDate : Date)
    : option string :=
  match date, baseDate with
  | Valid date, Valid baseDate =>
      let diffInSeconds := (baseDate - date) / 1000 in
      match pick diffInSeconds units with
      | Some (value, unit) => rtf_format locale value unit
      | None => Some "just now"
      end
  | _, _ => Some "just now"
  end.

End Intl.

(** *** [hasTranslationKey] *)



End TranslationHelpers.

(** ** The build scripts: [scripts/translationTypes.js] *)

Module TranslationTypes.

(** The line feed. *)
Definition nl : string := String "010" EmptyString.






(** [' '.repeat(indent)] *)
Fixpoint spaces (indent : nat) : string :=
  match indent with
  | O => EmptyString
  | S n => String " " (spaces n)
  end.

Definition leaf_line (indent : nat) (key : string) : string :=
  spaces indent +:+ key +:+ ": string;" +:+ String "010" EmptyString.

Definition open_line (indent : nat) (key : string) : string :=
  spaces indent +:+ key +:+ ": {" +:+ String "010" EmptyString.

Definition close_line (indent : nat) : string :=
  spaces indent +:+ "};" +:+ String "010" EmptyString.

(** [Object.entries] of the characters of a string. *)
Fixpoint characters (i : nat) (s : string) : list (string * JS.value) :=
  match s with
  | EmptyString => []
  | String c s => (pretty i, JS.Str (String c EmptyString)) :: characters (S i) s
  end.

(** Lines 93-108.  [None] is the [TypeError] of [Object.entries] on [null]
    or [undefined]; the recursive call is made on objects and arrays only,
    so it can only arise for the outermost [obj]. *)
Fixpoint generateInterfaceProperties (obj : JS.value) (indent : nat)
    {struct obj} : option string :=
  let property key value output :=
    if JS.is_object value then
      inner ← generateInterfaceProperties value (indent + 2);
      Some (open_line indent key +:+ inner +:+ close_line indent +:+ output)
    else Some (leaf_line indent key +:+ output) in
  match obj with
  | JS.Undefined | JS.Null => None
  | JS.Bool _ | JS.Number _ => Some EmptyString
  | JS.Str s =>
      Some (foldr (λ kv output, leaf_line indent kv.1 +:+ output)
                  EmptyString (characters 0 s))
  | JS.Array items =>
      (fix entries (i : nat) (items : list JS.value) : option string :=
         match items with
         | [] => Some EmptyString
         | value :: items =>
             output ← entries (S i) items;
             property (pretty i) value output
         end) 0%nat items
  | JS.Object props =>
      (fix entries (props : list (string * JS.value)) : option string :=
         match props with
         | [] => Some EmptyString
         | (key, value) :: props =>
             output ← entries props;
             property key value output
         end) props
  end.


(** [file.endsWith('.json')] *)
Definition is_json (file : string) : bool :=
  (5 <=? String.length file)%nat
  && String.eqb (String.substring (String.length file - 5) 5 file) ".json".

(** [path.basename(file, '.json')] for a file name that ends in [.json]. *)
Definition basename_json (file : string) : string :=
  String.substring 0 (String.length file - 5) file.

(** [obj[k] = v]: an existing property keeps its place. *)
Fixpoint assign (k : string) (v : JS.value) (props : list (string * JS.value))
    : list (string * JS.value) :=
  match props with
  | [] => [(k, v)]
  | (k', v') :: props =>
      if String.eqb k k' then (k, v) :: props else (k', v') :: assign k v props
  end.

Section Generators.

(** [JSON.parse] ([None] when it throws) and [JSON.stringify(_, null, 2)]
    belong to the runtime, not to the scripts. *)
Context (JSON_parse : string → option JS.value).
Context (JSON_stringify : JS.value → string).

(** [fs.readdirSync(localesDir)]: the directory is given by its files,
    name to content.  The order of the listing is the file system's. *)
Definition readdirSync (dir : gmap string string) : list string :=
  (map_to_list dir).*1.












End Generators.


End TranslationTypes.

(** ** The build scripts: [scripts/hashTranslations.js] *)

(** [crypto.createHash('md5')]: the MD5 message digest (RFC 1321), on
    32-bit words held in [Z]. *)
Module MD5.

Definition wrap (x : Z) : Z := x mod 2 ^ 32.

Definition add (x y : Z) : Z := wrap (x + y).

Definition rotl (x : Z) (n : Z) : Z :=
  Z.lor (wrap (Z.shiftl x n)) (Z.shiftr x (32 - n)).

Definition not32 (x : Z) : Z := Z.lxor x 0xffffffff.

Definition F (x y z : Z) : Z := Z.lor (Z.land x y) (Z.land (not32 x) z).
Definition G (x y z : Z) : Z := Z.lor (Z.land x z) (Z.land y (not32 z)).
Definition H (x y z : Z) : Z := Z.lxor (Z.lxor x y) z.
Definition I (x y z : Z) : Z := Z.lxor y (Z.lor x (not32 z)).

(** [T[i] = floor(2^32 * abs(sin(i + 1)))] *)
Definition T : list Z := [
  0xd76aa478; 0xe8c7b756; 0x242070db; 0xc1bdceee;
  0xf57c0faf; 0x4787c62a; 0xa8304613; 0xfd469501;
  0x698098d8; 0x8b44f7af; 0xffff5bb1; 0x895cd7be;
  0x6b901122; 0xfd987193; 0xa679438e; 0x49b40821;
  0xf61e2562; 0xc040b340; 0x265e5a51; 0xe9b6c7aa;
  0xd62f105d; 0x02441453; 0xd8a1e681; 0xe7d3fbc8;
  0x21e1cde6; 0xc33707d6; 0xf4d50d87; 0x455a14ed;
  0xa9e3e905; 0xfcefa3f8; 0x676f02d9; 0x8d2a4c8a;
  0xfffa3942; 0x8771f681; 0x6d9d6122; 0xfde5380c;
  0xa4beea44; 0x4bdecfa9; 0xf6bb4b60; 0xbebfbc70;
  0x289b7ec6; 0xeaa127fa; 0xd4ef3085; 0x04881d05;
  0xd9d4d039; 0xe6db99e5; 0x1fa27cf8; 0xc4ac5665;
  0xf4292244; 0x432aff97; 0xab9423a7; 0xfc93a039;
  0x655b59c3; 0x8f0ccc92; 0xffeff47d; 0x85845dd1;
  0x6fa87e4f; 0xfe2ce6e0; 0xa3014314; 0x4e0811a1;
  0xf7537e82; 0xbd3af235; 0x2ad7d2bb; 0xeb86d391 ].

(** The per-step left rotations. *)
Definition shifts : list Z := [
  7; 12; 17; 22; 7; 12; 17; 22; 7; 12; 17; 22; 7; 12; 17; 22;
  5; 9; 14; 20; 5; 9; 14; 20; 5; 9; 14; 20; 5; 9; 14; 20;
  4; 11; 16; 23; 4; 11; 16; 23; 4; 11; 16; 23; 4; 11; 16; 23;
  6; 10; 15; 21; 6; 10; 15; 21; 6; 10; 15; 21; 6; 10; 15; 21 ].

Record state : Type := { A : Z; B : Z; C : Z; D : Z }.

Definition initial : state :=
  {| A := 0x67452301; B := 0xefcdab89; C := 0x98badcfe; D := 0x10325476 |}.

(** Step [i] (from 0 to 63) on the sixteen words [X] of a block. *)
Definition operation (X : list Z) (st : state) (i : nat) : state :=
  let '(f, g) :=
    if (i <? 16)%nat then (F (B st) (C st) (D st), i)
    else if (i <? 32)%nat then (G (B st) (C st) (D st), (5 * i + 1) mod 16)%nat
    else if (i <? 48)%nat then (H (B st) (C st) (D st), (3 * i + 5) mod 16)%nat
    else (I (B st) (C st) (D st), (7 * i) mod 16)%nat in
  let sum := add (add (add (A st) f) (nth i T 0)) (nth g X 0) in
  {| A := D st; B := add (B st) (rotl sum (nth i shifts 0));
     C := B st; D := C st |}.

Definition process_block (st : state) (X : list Z) : state :=
  let st' := foldl (operation X) st (seq 0 64) in
  {| A := add (A st) (A st'); B := add (B st) (B st');
     C := add (C st) (C st'); D := add (D st) (D st') |}.

(** Little-endian bytes of a number, and back. *)
Fixpoint le_bytes (n : nat) (x : Z) : list Z :=
  match n with
  | O => []
  | S n => x mod 256 :: le_bytes n (x / 256)
  end.

Fixpoint le_word (bytes : list Z) : Z :=
  match bytes with
  | [] => 0
  | b :: bytes => b + 256 * le_word bytes
  end.

(** Append the bit 1, zeros up to 56 modulo 64, and the bit length. *)
Definition pad (message : list Z) : list Z :=
  let len := length message in
  let zeros := ((119 - len mod 64) mod 64)%nat in
  message ++ [0x80] ++ replicate zeros 0 ++ le_bytes 8 (8 * Z.of_nat len).

(** Cut into words of four bytes, then blocks of sixteen words.  [fuel]
    bounds the number of pieces. *)
Fixpoint chunks {X : Type} (fuel size : nat) (l : list X) : list (list X) :=
  match fuel, l with
  | O, _ | _, [] => []
  | S fuel, _ => take size l :: chunks fuel size (drop size l)
  end.

Definition blocks (padded : list Z) : list (list Z) :=
  chunks (length padded) 16 (le_word <$> chunks (length padded) 4 padded).

Definition hex_digit (x : Z) : ascii :=
  nth (Z.to_nat x)
      ["0"; "1"; "2"; "3"; "4"; "5"; "6"; "7";
       "8"; "9"; "a"; "b"; "c"; "d"; "e"; "f"]%char "0"%char.

Definition hex_byte (b : Z) : string :=
  String (hex_digit (b / 16)) (String (hex_digit (b mod 16)) EmptyString).

Definition hex_word (x : Z) : string :=
  foldr (λ b rest, hex_byte b +:+ rest) EmptyString (le_bytes 4 x).

Definition is_hex_digit (c : ascii) : bool :=
  bool_decide (c ∈ ["0"; "1"; "2"; "3"; "4"; "5"; "6"; "7";
                    "8"; "9"; "a"; "b"; "c"; "d"; "e"; "f"]%char).

(** [.update(content).digest('hex')] *)
Definition digest_hex (content : list Byte.byte) : string :=
  let message := (λ b, Z.of_N (Byte.to_N b)) <$> content in
  let st := foldl process_block initial (blocks (pad message)) in
  hex_word (A st) +:+ hex_word (B st) +:+ hex_word (C st) +:+ hex_word (D st).

End MD5.

Module HashTranslations.

(** A file: its bytes, and the modification time the file system keeps
    for it. *)
Record File : Type := {
  content : list Byte.byte;
  mtimeMs : Z
}.

(** Lines 258-265.  [None]: [readFileSync] throws, there is no such file. *)
Definition generateHash (fs : gmap string File) (filePath : string)
    : option string :=
  fileContent ← content <$> fs !! filePath;
  Some (String.substring 0 8 (MD5.digest_hex fileContent)).

End HashTranslations.

(** *** The file system *)

(** Node's [fs] and [path], as far as [hashTranslations] uses them.
    Paths are absolute and normalized, as [path.resolve] returns them and
    as the example scripts pass them; the root directory is written as the
    empty path. *)
Module Fs.

Import HashTranslations.

(** The regular files and the directories, by path. *)
Record Disk : Type := {
  files : gmap string File;
  directories : gset string
}.

(** [path.join(dir, name)] for the name of an entry. *)
Definition path_join (dir name : string) : string := dir +:+ "/" +:+ name.

Definition has_slash (s : string) : bool :=
  existsb (Ascii.eqb "/") (list_ascii_of_string s).

(** The name under which [path] is an entry of [dir], if it is one. *)
Definition entry_name (dir path : string) : option string :=
  if String.prefix (dir +:+ "/") path then
    let name := Helpers.behind (String.length dir + 1) path in
    if String.eqb name "" || has_slash name then None else Some name
  else None.

(** [fs.existsSync(path)] *)
Definition existsSync (d : Disk) (path : string) : bool :=
  bool_decide (path ∈ dom (files d) ∪ directories d).

(** [fs.statSync(path).isDirectory()] for a path that exists. *)
Definition isDirectory (d : Disk) (path : string) : bool :=
  bool_decide (path ∈ directories d).

(** [fs.readdirSync(dir)]; [None] when it throws, [dir] being no
    directory.  The order of the listing is the file system's. *)
Definition readdirSync (d : Disk) (dir : string) : option (list string) :=
  if decide (dir ∈ directories d)
  then Some (omap (entry_name dir) (elements (dom (files d) ∪ directories d)))
  else None.

(** The directories above [path], outermost first, the root left out.
    [seen] is the part of the path already read. *)
Fixpoint parents (seen path : string) : list string :=
  match path with
  | EmptyString => []
  | String c rest =>
      (if Ascii.eqb c "/" && negb (String.eqb seen "") then [seen] else [])
      ++ parents (seen +:+ String c EmptyString) rest
  end.

(** [fs.mkdirSync(path, { recursive: true })]: the directory and those
    above it that are missing are made; it throws when a file is in the
    way. *)
Definition mkdirSync (d : Disk) (path : string) : option Disk :=
  let wanted := parents EmptyString path ++ [path] in
  if bool_decide (Exists (λ p, p ∈ dom (files d)) wanted) then None
  else Some {| files := files d;
               directories := directories d ∪ list_to_set wanted |}.

(** [fs.unlinkSync(path)]: it throws unless [path] is a file. *)
Definition unlinkSync (d : Disk) (path : string) : option Disk :=
  if decide (path ∈ dom (files d))
  then Some {| files := delete path (files d); directories := directories d |}
  else None.

(** [path.dirname(path)]: what precedes the last separator.  [seen] is
    the part of the path already read. *)
Fixpoint dirname_go (seen path : string) : option string :=
  match path with
  | EmptyString => None
  | String c rest =>
      match dirname_go (seen +:+ String c EmptyString) rest with
      | Some dir => Some dir
      | None => if Ascii.eqb c "/" then Some seen else None
      end
  end.

Definition dirname (path : string) : string :=
  default "." (dirname_go EmptyString path).

(** [fs.writeFileSync(path, data)] at the time [now]: it throws when
    [path] is a directory or lies in none. *)
Definition writeFileSync (now : Z) (d : Disk) (path : string)
    (data : list Byte.byte) : option Disk :=
  if bool_decide (path ∈ directories d)
     || negb (bool_decide (dirname path ∈ directories d))
  then None
  else Some {| files := <[path := {| content := data; mtimeMs := now |}]> (files d);
               directories := directories d |}.

(** [fs.copyFileSync(src, dest)] at the time [now]: [src] is to be a
    file, and [dest] is written like any file. *)
Definition copyFileSync (now : Z) (d : Disk) (src dest : string)
    : option Disk :=
  file ← files d !! src;
  writeFileSync now d dest (content file).

(** A [for] loop whose body can throw: the first exception ends it. *)
Fixpoint each {X S : Type} (body : S → X → option S) (s : S) (xs : list X)
    : option S :=
  match xs with
  | [] => Some s
  | x :: xs => s ← body s x; each body s xs
  end.

End Fs.

(** *** [hashTranslations] and [generateTSManifest] *)

(** What the script prints with [console.log] and [console.error] is left
    out. *)
Module HashedCopies.

Import HashTranslations Fs.

(** [file.replace('.json', '')]: the first occurrence is taken out. *)
Fixpoint remove_first (pat s : string) : string :=
  match s with
  | EmptyString => EmptyString
  | String c s' =>
      if String.prefix pat s then Helpers.behind (String.length pat) s
      else String c (remove_first pat s')
  end.

Section Script.

(** [JSON.stringify(_, null, 2)] belongs to the runtime. *)
Context (JSON_stringify : JS.value → string).

(** The clock of the run: the time the files written get, and
    [new Date().toISOString()]. *)
Context (now : Z) (buildTime : string).

(** Lines 225-240: one file of a language directory.  The state is the
    disk and the object [manifest]. *)
Definition hash_file (lang langPath hashedLangPath : string)
    (state : Disk * list (string * JS.value)) (file : string)
    : option (Disk * list (string * JS.value)) :=
  let '(d, manifest) := state in
  let filePath := path_join langPath file in
  hash ← generateHash (files d) filePath;
  let fileNameWithoutExt := remove_first ".json" file in
  let hashedFileName := fileNameWithoutExt +:+ "." +:+ hash +:+ ".json" in
  let hashedFilePath := path_join hashedLangPath hashedFileName in
  d ← copyFileSync now d filePath hashedFilePath;
  Some (d, TranslationTypes.assign
             (lang +:+ "/" +:+ fileNameWithoutExt)
             (JS.Str (lang +:+ "/" +:+ hashedFileName)) manifest).

(** Lines 209-223: the old hashed files are removed; one that cannot be
    removed is passed over. *)
Definition cleanup (d : Disk) (hashedLangPath : string) : option Disk :=
  if existsSync d hashedLangPath then
    old ← readdirSync d hashedLangPath;
    Some (foldl (λ d oldHashedFile,
                   default d (unlinkSync d (path_join hashedLangPath oldHashedFile)))
                d (filter (λ file, TranslationTypes.is_json file = true) old))
  else Some d.

(** Lines 190-241: one language directory. *)
Definition hash_language (localesDir hashedDir : string)
    (state : Disk * list (string * JS.value)) (lang : string)
    : option (Disk * list (string * JS.value)) :=
  let '(d, manifest) := state in
  let langPath := path_join localesDir lang in
  let hashedLangPath := path_join hashedDir lang in
  d ← (if existsSync d hashedLangPath then Some d
       else mkdirSync d hashedLangPath);
  entries ← readdirSync d langPath;
  let jsonFiles := filter (λ file, TranslationTypes.is_json file = true) entries in
  d ← cleanup d hashedLangPath;
  each (hash_file lang langPath hashedLangPath) (d, manifest) jsonFiles.

(** Lines 270-291. *)
Definition generateTSManifest (manifest : list (string * JS.value))
    (tsManifestPath : string) (d : Disk) : option Disk :=
  let nl := String "010" EmptyString in
  let tsManifest := filter (λ kv, kv.1 ≠ "_buildTime") manifest in
  let tsContent :=
    "// THIS FILE IS AUTO-GENERATED - DO NOT EDIT MANUALLY" +:+ nl
    +:+ "// It provides the mapping between translation namespaces and their hashed filenames"
    +:+ nl +:+ nl
    +:+ "export interface TranslationManifest {" +:+ nl
    +:+ "  [key: string]: string;" +:+ nl
    +:+ "}" +:+ nl +:+ nl
    +:+ "// This is populated with the manifest generated during build" +:+ nl
    +:+ "export const translationManifest: TranslationManifest = "
    +:+ JSON_stringify (JS.Object tsManifest) +:+ ";" +:+ nl in
  writeFileSync now d tsManifestPath (list_byte_of_string tsContent).

(** Lines 165-253.  The result is the disk the script leaves and the
    object [manifest] it has built; [None] when it throws. *)
Definition hashTranslations
    (localesDir hashedDir manifestPath tsManifestPath : string) (d : Disk)
    : option (Disk * list (string * JS.value)) :=
  d ← (if existsSync d hashedDir then Some d else mkdirSync d hashedDir);
  items ← readdirSync d localesDir;
  let langDirs :=
    filter (λ item,
              existsSync d (path_join localesDir item)
              && isDirectory d (path_join localesDir item) = true) items in
  '(d, manifest) ← each (hash_language localesDir hashedDir) (d, []) langDirs;
  let manifest := TranslationTypes.assign "_buildTime" (JS.Str buildTime) manifest in
  d ← writeFileSync now d manifestPath
        (list_byte_of_string (JSON_stringify (JS.Object manifest)));
  d ← generateTSManifest manifest tsManifestPath d;
  Some (d, manifest).

(** What the generated TypeScript file exports as [translationManifest]:
    the entries of [manifest] but [_buildTime]. *)
Definition translationManifest (manifest : list (string * JS.value))
    : gmap string string :=
  list_to_map
    (omap (λ kv, match kv.2 with JS.Str s => Some (kv.1, s) | _ => None end)
          (filter (λ kv, kv.1 ≠ "_buildTime") manifest)).

End Script.

End HashedCopies.

(** ** Sample data *)

Module Sample.

Import Provider HashTranslations.

(** English is the default language, Spanish is fetched. *)
Definition common_en : JS.value :=
  JS.Object [("nav", JS.Object [("back", JS.Str "Back")])].

Definition common_es : JS.value :=
  JS.Object [("nav", JS.Object [("back", JS.Str "Volver")])].

Definition app (manifest : gmap string string) : Props :=
  {| defaultLanguage := "en";
     defaultTranslations := {[ "common" := common_en ]};
     translationManifest := manifest;
     isSupportedLanguage := λ lang, bool_decide (lang ∈ ["en"; "es"]);
     localesPath := "/locales";
     localesHashedPath := "/locales-hashed" |}.

Definition manifest_es : gmap string string :=
  {[ "es/common" := "es/common.ab12cd34.json" ]}.

Definition saved (lang : string) : gmap string string :=
  {[ "language" := lang ]}.

(** A translation file with one greeting. *)
Definition greeting (n : string) : list Byte.byte :=
  let quote := String "034" EmptyString in
  list_byte_of_string
    ("{" +:+ quote +:+ "greeting" +:+ quote +:+ ":"
     +:+ quote +:+ "hello " +:+ n +:+ quote +:+ "}").


End Sample.

(** ** Notions used in the statements *)

Module Notions.
Import Provider.

(** The entry of [localStorage] is the language of the latest render. *)
Definition saved_language (w : World) : Prop :=
  localStorage w !! "language" = Some (language (closure w)).

(** The closures of the latest render know no namespace that the cell
    does not hold. *)
Definition closure_behind (w : World) : Prop :=
  loadedNamespaces (closure w) ⊆ loadedNamespaces (hooks w).

(** With no invocation suspended, [isLoading] is down. *)
Definition settled (w : World) : Prop :=
  tasks w = [] → isLoading (hooks w) = false.


End Notions.

(** ** A sample project on disk *)

Module Site.

Import HashTranslations Fs HashedCopies Sample.

(** A project with two languages, hashed once before. *)
Definition site : Disk :=
  {| files :=
       {[ "/app/public/locales/en/common.json"
            := {| content := greeting "16313"; mtimeMs := 1000 |};
          "/app/public/locales/es/common.json"
            := {| content := greeting "4"; mtimeMs := 2000 |};
          "/app/public/locales-hashed/es/common.00000000.json"
            := {| content := []; mtimeMs := 500 |} ]};
     directories :=
       {[ "/app"; "/app/public"; "/app/public/locales";
          "/app/public/locales/en"; "/app/public/locales/es";
          "/app/public/locales-hashed"; "/app/public/locales-hashed/es";
          "/app/src"; "/app/src/translations" ]} |}.

(** The script run on it, with a runtime whose [JSON.stringify] is of no
    interest. *)
Definition hashed : option (Disk * list (string * JS.value)) :=
  hashTranslations (λ _, "{}") 3000 "2025-01-15T00:00:00.000Z"
    "/app/public/locales" "/app/public/locales-hashed"
    "/app/public/locales-hashed/manifest.json"
    "/app/src/translations/translationManifest.ts" site.

(** What the script leaves: the disk, and the manifest. *)
Definition outcome : Disk * list (string * JS.value) :=
  default (site, []) hashed.

End Site.

(** * Properties *)

Local Close Scope Z_scope.

(** ** Lists *)

Module ListFacts.

Lemma zip_with_snoc {X Y R : Type} (f : X → Y → R) (d : X) ys : ∀ xs y,
  length ys < length xs →
  zip_with f xs (ys ++ [y]) = zip_with f xs ys ++ [f (nth (length ys) xs d) y].
Proof.
  induction ys as [|y' ys IH]; intros [|x xs] y Hlen; simpl in *; try lia.
  - by destruct xs.
  - f_equal. apply IH. lia.
Qed.

Lemma delete_insert_same {X : Type} (l : list X) i x :
  delete i (<[i:=x]> l) = delete i l.
Proof.
  revert i. induction l as [|y l IH]; intros [|i]; simpl; try done.
  f_equal. apply IH.
Qed.



End ListFacts.

(** ** The provider *)

Module ProviderFacts.

Import Provider Sample ListFacts.

Section Facts.

Context (P : Props).

(** *** What each operation leaves alone *)

Lemma loadTranslations_hooks_frame r nss w :
  let w' := loadTranslationsForNamespaces P r nss w in
  language (hooks w') = language (hooks w)
  ∧ loadedNamespaces (hooks w') = loadedNamespaces (hooks w)
  ∧ closure w' = closure w.
Proof.
  unfold loadTranslationsForNamespaces.
  destruct (decide _); [done|]. by destruct nss.
Qed.

Lemma resume_hooks_frame i resp w :
  let w' := resume P i resp w in
  language (hooks w') = language (hooks w)
  ∧ loadedNamespaces (hooks w') = loadedNamespaces (hooks w)
  ∧ closure w' = closure w.
Proof.
  unfold resume. destruct (tasks w !! i) as [task|]; [|done].
  destruct resp, (task_rest task); done.
Qed.

Lemma loadNamespaces_loaded r nss w :
  loadedNamespaces (hooks (loadNamespaces P r nss w))
  = loadedNamespaces (hooks w)
    ∪ (if (0 <? length (filter (λ ns, ns ∉ loadedNamespaces r) nss))%nat
       then list_to_set (filter (λ ns, ns ∉ loadedNamespaces r) nss) else ∅).
Proof.
  unfold loadNamespaces.
  destruct (0 <? _)%nat; [|set_solver].
  by rewrite (proj1 (proj2 (loadTranslations_hooks_frame _ _ _))).
Qed.

Lemma t_loaded r key ns w :
  loadedNamespaces (hooks (t P r key ns w).1)
  = loadedNamespaces (hooks w)
    ∪ (if decide (ns ∈ loadedNamespaces r) then ∅ else {[ ns ]}).
Proof.
  unfold t.
  destruct (lookup P r key ns); simpl;
    (destruct (decide (ns ∈ _)); [set_solver|]);
    (destruct (decide (_ ≠ _));
     [by rewrite (proj1 (proj2 (loadTranslations_hooks_frame _ _ _)))|done]).
Qed.

Lemma runEffects_loaded r w :
  loadedNamespaces (hooks (runEffects P r w)) = loadedNamespaces (hooks w).
Proof.
  unfold runEffects, languageEffect. destruct (decide _); [done|].
  by rewrite (proj1 (proj2 (loadTranslations_hooks_frame _ _ _))).
Qed.

Lemma step_loaded_mono w e :
  loadedNamespaces (hooks w) ⊆ loadedNamespaces (hooks (step P w e)).
Proof.
  destruct e as [|key ns|nss|lang|i resp]; simpl.
  - unfold render. case_bool_decide; [|done]. by rewrite runEffects_loaded.
  - rewrite t_loaded. set_solver.
  - rewrite loadNamespaces_loaded. set_solver.
  - done.
  - by rewrite (proj1 (proj2 (resume_hooks_frame _ _ _))).
Qed.

(** C9. [loadedNamespaces] starts as the set of namespace keys of
    [defaultTranslations], and no operation on the provider (a render
    with its effects, [t], [loadNamespaces], [setLanguage], a response to
    a fetch) ever removes a namespace from it; switching the language in
    particular leaves every namespace in. *)
Theorem loadedNamespaces_only_grows :
  (∀ storage,
     loadedNamespaces (hooks (mount P storage)) = dom (defaultTranslations P))
  ∧ (∀ w es,
       loadedNamespaces (hooks w) ⊆ loadedNamespaces (hooks (run P w es)))
  ∧ (∀ w lang,
       loadedNamespaces (hooks (run P w [CallSetLanguage lang; Render]))
       = loadedNamespaces (hooks w)).
Proof.
  split; [|split].
  - intros storage. unfold mount. by rewrite runEffects_loaded.
  - intros w es. revert w. induction es as [|e es IH]; intros w; [done|].
    simpl. etrans; [apply (step_loaded_mono w e)|apply IH].
  - intros w lang. simpl. unfold render. case_bool_decide; [|done].
    by rewrite runEffects_loaded.
Qed.

(** *** Which url is fetched *)

Lemma loadTranslations_network r nss w :
  network (loadTranslationsForNamespaces P r nss w)
  = network w
    ++ (if decide (language r = defaultLanguage P) then []
        else request P (language r) <$> take 1 nss).
Proof.
  unfold loadTranslationsForNamespaces. destruct (decide _).
  - by rewrite app_nil_r.
  - destruct nss; simpl; [by rewrite app_nil_r|done].
Qed.

Lemma resume_network i resp w :
  network (resume P i resp w)
  = network w
    ++ match tasks w !! i with
       | Some task => request P (task_language task) <$> take 1 (task_rest task)
       | None => []
       end.
Proof.
  unfold resume. destruct (tasks w !! i) as [task|]; [|by rewrite app_nil_r].
  destruct resp, (task_rest task); simpl; by rewrite ?app_nil_r.
Qed.

Lemma built_requests lang nss : Forall (built P) (request P lang <$> nss).
Proof. apply Forall_fmap, Forall_true. by intros ns. Qed.

Lemma step_network w e :
  Forall (built P) (network w) → Forall (built P) (network (step P w e)).
Proof.
  intros Hw. destruct e as [|key ns|nss|lang|i resp]; simpl.
  - unfold render. case_bool_decide; [|done].
    unfold runEffects, languageEffect. destruct (decide _); [done|].
    rewrite loadTranslations_network. apply Forall_app. split; [done|].
    destruct (decide _); [done|apply built_requests].
  - unfold t.
    assert (Forall (built P) (network
      (if decide (ns ∈ loadedNamespaces (closure w)) then w
       else
         let w0 := setLoadedNamespaces (λ prev, prev ∪ {[ns]}) w in
         if decide (language (closure w) ≠ defaultLanguage P)
         then loadTranslationsForNamespaces P (closure w) [ns] w0 else w0))).
    { destruct (decide (ns ∈ _)); [done|]. simpl.
      destruct (decide (_ ≠ _)); [|done].
      rewrite loadTranslations_network. apply Forall_app. split; [done|].
      destruct (decide _); [done|apply built_requests]. }
    by destruct (lookup P (closure w) key ns).
  - unfold loadNamespaces. destruct (0 <? _)%nat; [|done].
    rewrite loadTranslations_network. apply Forall_app. split; [done|].
    destruct (decide _); [done|apply built_requests].
  - done.
  - rewrite resume_network. apply Forall_app. split; [done|].
    destruct (tasks w !! i); [apply built_requests|done].
Qed.

Lemma mount_network storage : Forall (built P) (network (mount P storage)).
Proof.
  unfold mount, runEffects, languageEffect. destruct (decide _); [done|].
  rewrite loadTranslations_network. simpl.
  destruct (decide _); [done|apply built_requests].
Qed.

Lemma run_network w es :
  Forall (built P) (network w) → Forall (built P) (network (run P w es)).
Proof.
  revert w. induction es as [|e es IH]; intros w Hw; [done|].
  simpl. by apply IH, step_network.
Qed.

(** C5, amended.  Whatever happens to a mounted provider, every fetch it
    issues for a pair (language, namespace) goes to
    [localesHashedPath/value] when the manifest maps
    ["language/namespace"] to a non-empty [value], and to
    [localesPath/language/namespace.json] when the manifest has no such
    key or maps it to the empty string. *)
Theorem fetch_url_follows_manifest storage es rq :
  rq ∈ network (run P (mount P storage) es) →
  let manifestKey := req_language rq +:+ "/" +:+ req_namespace rq in
  let conventional :=
    localesPath P +:+ "/" +:+ req_language rq +:+ "/" +:+ req_namespace rq
    +:+ ".json" in
  (∀ value, translationManifest P !! manifestKey = Some value →
            value ≠ EmptyString →
            req_url rq = localesHashedPath P +:+ "/" +:+ value)
  ∧ (translationManifest P !! manifestKey = None
     ∨ translationManifest P !! manifestKey = Some EmptyString →
     req_url rq = conventional).
Proof.
  intros Hin manifestKey conventional.
  assert (Hurl : req_url rq = fetch_url P (req_language rq) (req_namespace rq)).
  { pose proof (run_network _ es (mount_network storage)) as Hall.
    rewrite Forall_forall in Hall. exact (f_equal req_url (Hall rq Hin)). }
  rewrite Hurl. unfold fetch_url. fold manifestKey. split.
  - intros value Hm Hne. rewrite Hm.
    by destruct (String.eqb_spec value EmptyString).
  - by intros [Hm|Hm]; rewrite Hm.
Qed.


(** *** The default language *)



(** *** One batch of fetches *)

Lemma settle_entry ns resp w :
  (settle P ns resp w).1 = entry P ns resp
  ∧ hooks (settle P ns resp w).2 = hooks w
  ∧ closure (settle P ns resp w).2 = closure w
  ∧ tasks (settle P ns resp w).2 = tasks w
  ∧ network (settle P ns resp w).2 = network w
  ∧ console (settle P ns resp w).2 = console w ++ logged ns resp.
Proof. destruct resp; simpl; by rewrite ?app_nil_r. Qed.

(** A response to a fetch that is not the last of its loop. *)
Lemma resume_more i resp w task ns rest :
  tasks w !! i = Some task →
  task_rest task = ns :: rest →
  let w' := resume P i resp w in
  hooks w' = hooks w
  ∧ tasks w' = <[i := {| task_language := task_language task;
                         task_namespace := ns;
                         task_rest := rest;
                         newTranslations :=
                           <[task_namespace task := entry P (task_namespace task) resp]>
                             (newTranslations task) |}]> (tasks w)
  ∧ network w' = network w ++ [request P (task_language task) ns]
  ∧ console w' = console w ++ logged (task_namespace task) resp.
Proof.
  intros Hi Hrest. unfold resume. rewrite Hi, Hrest.
  destruct resp; simpl; by rewrite ?app_nil_r.
Qed.

(** A response to the last fetch of a loop. *)
Lemma resume_last i resp w task :
  tasks w !! i = Some task →
  task_rest task = [] →
  let w' := resume P i resp w in
  hooks w' = {| language := language (hooks w);
                translations :=
                  <[task_namespace task := entry P (task_namespace task) resp]>
                    (newTranslations task) ∪ translations (hooks w);
                loadedNamespaces := loadedNamespaces (hooks w);
                isLoading := false |}
  ∧ tasks w' = delete i (tasks w)
  ∧ network w' = network w
  ∧ console w' = console w ++ logged (task_namespace task) resp.
Proof.
  intros Hi Hrest. unfold resume. rewrite Hi, Hrest.
  destruct resp; simpl; by rewrite ?app_nil_r.
Qed.

Lemma respond_all_snoc i resps resp w :
  respond_all P i (resps ++ [resp]) w
  = resume P i resp (respond_all P i resps w).
Proof. unfold respond_all. by rewrite foldl_app. Qed.

(** The invocation after [length resps] of its fetches were answered,
    while at least one more is to come. *)
Lemma respond_all_prefix resps : ∀ i w task,
  tasks w !! i = Some task →
  length resps ≤ length (task_rest task) →
  let nss := task_namespace task :: task_rest task in
  let w' := respond_all P i resps w in
  hooks w' = hooks w
  ∧ tasks w' = <[i := {| task_language := task_language task;
                         task_namespace := nth (length resps) nss EmptyString;
                         task_rest := drop (length resps) (task_rest task);
                         newTranslations :=
                           fill P nss resps (newTranslations task) |}]> (tasks w)
  ∧ network w'
    = network w
      ++ (request P (task_language task) <$> take (length resps) (task_rest task))
  ∧ console w' = console w ++ mjoin (zip_with logged nss resps).
Proof.
  induction resps as [|resp resps IH]; intros i w task Hi Hlen; simpl.
  - rewrite !app_nil_r. split; [done|]. split; [|done].
    rewrite list_insert_id; [done|]. rewrite Hi. by destruct task.
  - simpl in Hlen.
    destruct (task_rest task) as [|ns rest] eqn:Hrest; [simpl in Hlen; lia|].
    destruct (resume_more i resp w task ns rest Hi Hrest) as (Hh & Ht & Hn & Hc).
    set (w1 := resume P i resp w) in *.
    set (task1 := {| task_language := task_language task; task_namespace := ns;
                     task_rest := rest;
                     newTranslations :=
                       <[task_namespace task := entry P (task_namespace task) resp]>
                         (newTranslations task) |}) in *.
    assert (Hi1 : tasks w1 !! i = Some task1).
    { rewrite Ht. apply list_lookup_insert_eq. by eapply lookup_lt_Some. }
    simpl in Hlen.
    destruct (IH i w1 task1 Hi1 ltac:(simpl; lia)) as (Hh' & Ht' & Hn' & Hc').
    change (respond_all P i (resp :: resps) w) with (respond_all P i resps w1).
    simpl in *. rewrite Hh', Ht', Hn', Hc', Hh, Ht, Hn, Hc.
    split; [done|]. split; [|split].
    + by rewrite list_insert_insert_eq.
    + by rewrite <- app_assoc.
    + by rewrite <- app_assoc.
Qed.

Lemma fill_snoc nss resps resp new :
  length resps < length nss →
  fill P nss (resps ++ [resp]) new
  = <[nth (length resps) nss EmptyString
      := entry P (nth (length resps) nss EmptyString) resp]>
      (fill P nss resps new).
Proof.
  intros Hlen. unfold fill.
  rewrite (zip_with_snoc pair EmptyString) by done.
  by rewrite foldl_app.
Qed.

(** The whole batch: the state once every fetch of the loop was answered. *)
Lemma respond_all_batch i w task resps :
  tasks w !! i = Some task →
  length resps = S (length (task_rest task)) →
  let nss := task_namespace task :: task_rest task in
  let w' := respond_all P i resps w in
  hooks w' = {| language := language (hooks w);
                translations :=
                  fill P nss resps (newTranslations task) ∪ translations (hooks w);
                loadedNamespaces := loadedNamespaces (hooks w);
                isLoading := false |}
  ∧ tasks w' = delete i (tasks w)
  ∧ network w' = network w ++ (request P (task_language task) <$> task_rest task)
  ∧ console w' = console w ++ mjoin (zip_with logged nss resps).
Proof.
  intros Hi Hlen.
  destruct resps as [|resp resps0 _] using rev_ind.
  - done.
  - rewrite length_app in Hlen. simpl in Hlen.
    assert (Hlen0 : length resps0 = length (task_rest task)) by lia.
    destruct (respond_all_prefix resps0 i w task Hi ltac:(lia))
      as (Hh & Ht & Hn & Hc).
    cbv zeta. rewrite respond_all_snoc.
    set (w1 := respond_all P i resps0 w) in *.
    set (last := {| task_language := task_language task;
                    task_namespace := nth (length resps0)
                      (task_namespace task :: task_rest task) EmptyString;
                    task_rest := drop (length resps0) (task_rest task);
                    newTranslations := fill P (task_namespace task :: task_rest task)
                                         resps0 (newTranslations task) |}) in *.
    assert (Hi1 : tasks w1 !! i = Some last).
    { rewrite Ht. apply list_lookup_insert_eq. by eapply lookup_lt_Some. }
    assert (Hrest : task_rest last = []).
    { simpl. rewrite Hlen0. apply drop_all. }
    destruct (resume_last i resp w1 last Hi1 Hrest) as (Hh' & Ht' & Hn' & Hc').
    rewrite Hh', Ht', Hn', Hc', Hh, Ht, Hn, Hc.
    rewrite fill_snoc by (simpl; lia).
    rewrite (zip_with_snoc _ EmptyString) by (simpl; lia).
    rewrite join_app, Hlen0, firstn_all, delete_insert_same, <- app_assoc.
    simpl. by rewrite ?Hlen0, ?app_nil_r.
Qed.
Lemma fill_cons ns nss resp resps new :
  fill P (ns :: nss) (resp :: resps) new
  = fill P nss resps (<[ns := entry P ns resp]> new).
Proof. done. Qed.

Lemma fill_lookup_notin ns nss : ∀ resps new,
  ns ∉ nss → fill P nss resps new !! ns = new !! ns.
Proof.
  induction nss as [|n nss IH]; intros [|resp resps] new Hnotin; try done.
  rewrite fill_cons, IH by set_solver.
  apply lookup_insert_ne. set_solver.
Qed.

Lemma fill_lookup_last nss : ∀ resps new k ns resp,
  nss !! k = Some ns → resps !! k = Some resp →
  ns ∉ drop (S k) nss →
  fill P nss resps new !! ns = Some (entry P ns resp).
Proof.
  induction nss as [|n nss IH]; intros [|r resps] new [|k] ns resp Hns Hresp Hlater;
    simplify_eq/=.
  - rewrite fill_cons, fill_lookup_notin by done. apply lookup_insert_eq.
  - rewrite fill_cons. by eapply IH.
Qed.

Lemma fill_lookup_in nss : ∀ resps new ns,
  length resps = length nss → ns ∈ nss →
  is_Some (fill P nss resps new !! ns).
Proof.
  induction nss as [|n nss IH]; intros [|r resps] new ns Hlen Hin;
    simplify_eq/=; [set_solver|].
  rewrite fill_cons. destruct (decide (ns ∈ nss)) as [Hns|Hns].
  - by apply IH.
  - rewrite fill_lookup_notin by done.
    assert (ns = n) as -> by set_solver.
    rewrite lookup_insert_eq. by eexists.
Qed.

Lemma lookup_fallen_back r key ns :
  translations r !! ns = Some (JS.index (defaultTranslations P) ns) →
  lookup P r key ns
  = walk key (JS.index (defaultTranslations P) ns) (JS.split "." key).
Proof.
  intros Hr. unfold lookup.
  replace (JS.index (translations r) ns)
    with (JS.index (defaultTranslations P) ns)
    by (unfold JS.index at 2; by rewrite Hr).
  by destruct (negb _ && _).
Qed.

(** C3, amended.  When the fetch for a namespace fails (the request
    fails, the response is not ok, or its body is not JSON) and the same
    batch fetches that namespace no more, then once the batch is
    through: the entry of the namespace in [translations] is its entry in
    [defaultTranslations]; the console has received exactly the lines of
    the fetches of the batch that threw (a response that is not ok logs
    nothing), so a line for this namespace if its failure was thrown;
    and [t] reads for the namespace what it reads when [translations] is
    [defaultTranslations]. *)
Theorem fetch_failure_falls_back i w task resps k ns resp :
  tasks w !! i = Some task →
  let nss := task_namespace task :: task_rest task in
  length resps = length nss →
  nss !! k = Some ns → resps !! k = Some resp →
  failed resp = true →
  ns ∉ drop (S k) nss →
  let w' := respond_all P i resps w in
  translations (hooks w') !! ns = Some (JS.index (defaultTranslations P) ns)
  ∧ console w' = console w ++ mjoin (zip_with logged nss resps)
  ∧ (thrown resp = true →
     ("Failed to load translation for " +:+ ns +:+ ":") ∈ console w')
  ∧ (∀ key r0, translations r0 = defaultTranslations P →
               lookup P (hooks w') key ns = lookup P r0 key ns).
Proof.
  intros Hi nss Hlen Hns Hresp Hfailed Hlater w'.
  destruct (respond_all_batch i w task resps Hi Hlen) as (Hh & _ & _ & Hc).
  fold nss w' in Hh, Hc.
  assert (Hentry : translations (hooks w') !! ns
                   = Some (JS.index (defaultTranslations P) ns)).
  { rewrite Hh. simpl. apply lookup_union_Some_l.
    rewrite (fill_lookup_last nss resps _ k ns resp) by done.
    by destruct resp. }
  split; [done|]. split; [done|]. split.
  - intros Hthrown. rewrite Hc. apply elem_of_app. right.
    apply list_elem_of_join. exists (logged ns resp). split.
    + destruct resp; simplify_eq/=; set_solver.
    + apply list_elem_of_lookup. exists k.
      rewrite lookup_zip_with, Hns. simpl. by rewrite Hresp.
  - intros key r0 Hr0. rewrite (lookup_fallen_back _ _ _ Hentry).
    unfold lookup. rewrite Hr0. by destruct (negb _ && _).
Qed.

(** C6, amended.  A batch raises [isLoading] when it starts and lowers it
    when it ends: while the responses to its fetches come in, [isLoading]
    stays true and the batch stays suspended until the last namespace is
    answered, and only then is [isLoading] false.  Whatever the responses
    are, failures included, every namespace of the batch is fetched, in
    order, and ends with an entry in [translations]. *)
Theorem batch_holds_isLoading r nss w resps :
  language r ≠ defaultLanguage P →
  nss ≠ [] →
  length resps = length nss →
  let w0 := loadTranslationsForNamespaces P r nss w in
  let i := length (tasks w) in
  (∀ k, k < length nss →
        isLoading (hooks (respond_all P i (take k resps) w0)) = true
        ∧ is_Some (tasks (respond_all P i (take k resps) w0) !! i))
  ∧ isLoading (hooks (respond_all P i resps w0)) = false
  ∧ tasks (respond_all P i resps w0) = tasks w
  ∧ network (respond_all P i resps w0)
    = network w ++ (request P (language r) <$> nss)
  ∧ (∀ ns, ns ∈ nss →
           is_Some (translations (hooks (respond_all P i resps w0)) !! ns)).
Proof.
  intros Hlang Hnss Hlen w0 i.
  destruct nss as [|ns rest]; [done|]. clear Hnss.
  set (task0 := {| task_language := language r; task_namespace := ns;
                   task_rest := rest; newTranslations := ∅ |}).
  assert (Hw0 : hooks w0 = hooks (setIsLoading true w)
                ∧ tasks w0 = tasks w ++ [task0]
                ∧ network w0 = network w ++ [request P (language r) ns]).
  { unfold w0, loadTranslationsForNamespaces.
    by destruct (decide (language r = defaultLanguage P)). }
  destruct Hw0 as (Hh0 & Ht0 & Hn0).
  assert (Hi : tasks w0 !! i = Some task0).
  { rewrite Ht0. unfold i. by rewrite lookup_app_r, Nat.sub_diag. }
  split; [|split; [|split; [|split]]].
  - intros k Hk. simpl in Hk, Hlen.
    assert (Hlenk : length (take k resps) = k).
    { rewrite length_take. lia. }
    destruct (respond_all_prefix (take k resps) i w0 task0 Hi
                ltac:(rewrite Hlenk; simpl; lia)) as (Hh & Ht & _).
    rewrite Hh, Hh0, Ht. split; [done|].
    rewrite list_lookup_insert_eq; [by eexists|by eapply lookup_lt_Some].
  - destruct (respond_all_batch i w0 task0 resps Hi Hlen) as (Hh & _).
    by rewrite Hh.
  - destruct (respond_all_batch i w0 task0 resps Hi Hlen) as (_ & Ht & _).
    rewrite Ht, Ht0. unfold i.
    rewrite delete_take_drop, take_app_length.
    rewrite drop_app_ge by lia.
    replace (S (length (tasks w)) - length (tasks w))%nat with 1%nat by lia.
    simpl. by rewrite app_nil_r.
  - destruct (respond_all_batch i w0 task0 resps Hi Hlen) as (_ & _ & Hn & _).
    rewrite Hn, Hn0. simpl. by rewrite <- app_assoc.
  - intros ns' Hin.
    destruct (respond_all_batch i w0 task0 resps Hi Hlen) as (Hh & _).
    rewrite Hh. simpl.
    destruct (fill_lookup_in (ns :: rest) resps ∅ ns' Hlen Hin) as [v Hv].
    exists v. by apply lookup_union_Some_l.
Qed.

(** *** How often a namespace is fetched *)





Lemma fetches_issue A rq w :
  fetches A (fetch rq w)
  = (fetches A w + if decide (req_namespace rq = A) then 1 else 0)%nat.
Proof.
  unfold fetches. simpl. rewrite filter_app, length_app, filter_cons.
  by destruct (decide (req_namespace rq = A)).
Qed.









(** *** Keys in well-formed trees *)





End Facts.



(** C2.  The key ["nav.back.0"] is no path of the tree
    [{nav: {back: "Back"}}], neither in the loaded translations nor in the
    default ones, and yet [t] does not return the key: the walk of lines
    220-223 indexes into the string leaf and returns its first
    character. *)
Lemma t_indexes_into_string_leaf :
  let P := app manifest_es in
  let w := mount P ∅ in
  JS.index (translations (closure w)) "common" = common_en
  ∧ JS.index (defaultTranslations P) "common" = common_en
  ∧ JS.leaf_at common_en ["nav"; "back"; "0"] = None
  ∧ (t P (closure w) "nav.back.0" "common" w).2 = "B"
  ∧ (t P (closure w) "nav.back" "common" w).2 = "Back"
  ∧ (t P (closure w) "nav.missing" "common" w).2 = "nav.missing".
Proof. by vm_compute. Qed.


(** C5, as stated, fails: with the entry ["es/common"] present in the
    manifest but empty, the fetch for (es, common) goes to the
    conventional path, not to [localesHashedPath/value]. *)
Lemma manifest_empty_value_is_skipped :
  let P := app {[ "es/common" := EmptyString ]} in
  let w := mount P (saved "es") in
  translationManifest P !! "es/common" = Some EmptyString
  ∧ network w = [ {| req_language := "es"; req_namespace := "common";
                     req_url := "/locales/es/common.json" |} ]
  ∧ "/locales/es/common.json" ≠ localesHashedPath P +:+ "/" +:+ EmptyString.
Proof. by vm_compute. Qed.

Lemma fetch_url_follows_manifest_witness :
  let P := app manifest_es in
  let w := run P (mount P (saved "es")) [CallLoadNamespaces ["dashboard"]] in
  let hashed := {| req_language := "es"; req_namespace := "common";
                   req_url := "/locales-hashed/es/common.ab12cd34.json" |} in
  let plain := {| req_language := "es"; req_namespace := "dashboard";
                  req_url := "/locales/es/dashboard.json" |} in
  network w = [hashed; plain]
  ∧ translationManifest P !! "es/common" = Some "es/common.ab12cd34.json"
  ∧ req_url hashed = localesHashedPath P +:+ "/" +:+ "es/common.ab12cd34.json"
  ∧ translationManifest P !! "es/dashboard" = None
  ∧ req_url plain = localesPath P +:+ "/es/dashboard.json".
Proof.
  intros P w hashed plain.
  assert (Hnetwork : network w = [hashed; plain]) by reflexivity.
  split; [exact Hnetwork|]. split; [reflexivity|]. split; [|split; [reflexivity|]].
  - refine (proj1 (fetch_url_follows_manifest P (saved "es")
                     [CallLoadNamespaces ["dashboard"]] hashed _)
                  "es/common.ab12cd34.json" _ _).
    + fold w. rewrite Hnetwork. apply elem_of_cons. by left.
    + reflexivity.
    + discriminate.
  - refine (proj2 (fetch_url_follows_manifest P (saved "es")
                     [CallLoadNamespaces ["dashboard"]] plain _) _).
    + fold w. rewrite Hnetwork. apply elem_of_cons. right.
      apply elem_of_cons. by left.
    + left. reflexivity.
Defined.



(** C3, as stated, fails: a response that is not ok makes the namespace
    fall back to the default data, but nothing is logged.  And when a
    batch fetches a namespace twice, a failure of the first fetch is
    overridden by the data of the second. *)
Lemma not_ok_response_is_silent :
  let P := app manifest_es in
  let w := mount P (saved "es") in
  let w' := run P w [Respond 0 NotOk] in
  let w'' := run P w [CallLoadNamespaces ["dashboard"; "dashboard"];
                      Respond 1 NetworkError; Respond 1 (OkJson common_es)] in
  req_namespace <$> network w = ["common"]
  ∧ failed NotOk = true
  ∧ translations (hooks w') !! "common" = Some common_en
  ∧ console w' = []
  ∧ translations (hooks w'') !! "dashboard" = Some common_es.
Proof. by vm_compute. Qed.

Lemma fetch_failure_falls_back_witness :
  let P := app manifest_es in
  let w := mount P (saved "es") in
  let w' := respond_all P 0 [NetworkError] w in
  translations (hooks w') !! "common"
  = Some (JS.index (defaultTranslations P) "common")
  ∧ console w' = ["Failed to load translation for common:"]
  ∧ lookup P (hooks w') "nav.back" "common" = Some "Back".
Proof.
  intros P w w'.
  destruct (fetch_failure_falls_back P 0 w
              {| task_language := "es"; task_namespace := "common";
                 task_rest := []; newTranslations := ∅ |}
              [NetworkError] 0 "common" NetworkError)
    as (Hentry & Hconsole & _ & Hlookup).
  - reflexivity.
  - reflexivity.
  - reflexivity.
  - reflexivity.
  - reflexivity.
  - simpl. apply not_elem_of_nil.
  - split; [exact Hentry|]. split; [exact Hconsole|].
    exact (Hlookup "nav.back" (initialHooks P ∅) eq_refl).
Defined.

(** C6, as stated, fails: of two overlapping batches, the first to end
    lowers [isLoading] while the other is still waiting for its fetch. *)
Lemma overlapping_batch_lowers_isLoading :
  let P := app manifest_es in
  let w := run P (mount P (saved "es"))
             [CallLoadNamespaces ["dashboard"]; Respond 0 (OkJson common_es)] in
  isLoading (hooks w) = false
  ∧ tasks w = [ {| task_language := "es"; task_namespace := "dashboard";
                   task_rest := []; newTranslations := ∅ |} ].
Proof. by vm_compute. Qed.

Lemma batch_holds_isLoading_witness :
  let P := app manifest_es in
  let w := mount P ∅ in
  let r := initialHooks P (saved "es") in
  let w0 := loadTranslationsForNamespaces P r ["dashboard"; "common"] w in
  isLoading (hooks (respond_all P 0 [NotOk] w0)) = true
  ∧ isLoading (hooks (respond_all P 0 [NotOk; OkJson common_es] w0)) = false
  ∧ req_namespace <$> network (respond_all P 0 [NotOk; OkJson common_es] w0)
    = ["dashboard"; "common"].
Proof.
  intros P w r w0.
  destruct (batch_holds_isLoading P r ["dashboard"; "common"] w
              [NotOk; OkJson common_es])
    as (Hduring & Hafter & _ & Hnetwork & _).
  - discriminate.
  - discriminate.
  - reflexivity.
  - split; [exact (proj1 (Hduring 1 ltac:(simpl; lia)))|].
    split; [exact Hafter|].
    exact (f_equal (fmap req_namespace) Hnetwork).
Defined.

End ProviderFacts.

(** ** Strings *)

Module StringFacts.

Lemma append_String (x : ascii) (a b : string) :
  String x a +:+ b = String x (a +:+ b).
Proof. reflexivity. Qed.

Lemma append_nil_l (a : string) : EmptyString +:+ a = a.
Proof. reflexivity. Qed.

Lemma append_assoc (a b c : string) : (a +:+ b) +:+ c = a +:+ (b +:+ c).
Proof.
  induction a as [|x a IH]; [done|]. by rewrite !append_String, IH.
Qed.

Lemma append_nil_r (a : string) : a +:+ EmptyString = a.
Proof.
  induction a as [|x a IH]; [done|]. by rewrite append_String, IH.
Qed.

Lemma length_append (a b : string) :
  String.length (a +:+ b) = String.length a + String.length b.
Proof.
  induction a as [|x a IH]; [done|]. rewrite append_String. simpl.
  by rewrite IH.
Qed.

(** [String.prefix] is "starts with". *)
Lemma prefix_append (pat s : string) :
  String.prefix pat s = true ↔ ∃ rest, s = pat +:+ rest.
Proof.
  revert s. induction pat as [|p pat IH]; intros s.
  - split; [by exists s|by destruct s].
  - destruct s as [|c s]; simpl.
    + split; [done|]. intros [rest Hrest]. by rewrite append_String in Hrest.
    + destruct (ascii_dec p c) as [->|Hne].
      * rewrite IH. split; intros [rest Hrest]; exists rest.
        -- by rewrite append_String, Hrest.
        -- rewrite append_String in Hrest. by injection Hrest.
      * split; [done|]. intros [rest Hrest].
        rewrite append_String in Hrest. by injection Hrest.
Qed.

End StringFacts.

Module HelpersFacts.

Import Helpers StringFacts.

Section Scan.

(** The word looked for: any non-empty one. *)
Context (p0 : ascii) (ptail : string).
Let pat := String p0 ptail.
Context (rep : string).

Lemma split_go_nonempty s : ∀ skip, split_go pat skip s ≠ [].
Proof.
  induction s as [|c s IH]; intros skip; [by simpl|]. cbn [split_go].
  destruct skip; [|apply IH].
  destruct (String.prefix pat (String c s)); [done|].
  by destruct (split_go pat 0 s).
Qed.

Lemma concat_cons sep piece pieces :
  pieces ≠ [] →
  String.concat sep (piece :: pieces) = piece +:+ sep +:+ String.concat sep pieces.
Proof. by destruct pieces. Qed.

Lemma concat_String sep c piece pieces :
  String.concat sep (String c piece :: pieces)
  = String c (String.concat sep (piece :: pieces)).
Proof. by destruct pieces. Qed.

(** Replacing is splitting at the word and joining with the replacement. *)
Lemma replace_go_split s : ∀ skip,
  replace_go pat rep skip s = String.concat rep (split_go pat skip s).
Proof.
  induction s as [|c s IH]; intros skip; [done|].
  cbn [replace_go split_go]. destruct skip; [|apply IH].
  destruct (String.prefix pat (String c s)).
  - rewrite concat_cons by apply split_go_nonempty. simpl. by rewrite IH.
  - rewrite IH. pose proof (split_go_nonempty s 0) as Hne.
    destruct (split_go pat 0 s) as [|piece pieces]; [done|].
    by rewrite concat_String.
Qed.

Lemma behind_append a s : behind (String.length a) (a +:+ s) = s.
Proof. induction a as [|x a IH]; simpl; [by destruct s|done]. Qed.

(** Joining the pieces with the word gives the text back. *)
Lemma concat_split_go s : ∀ skip,
  String.concat pat (split_go pat skip s) = behind skip s.
Proof.
  induction s as [|c s IH]; intros skip; [by destruct skip|].
  cbn [split_go]. destruct skip; [|apply IH].
  destruct (String.prefix pat (String c s)) eqn:Hpre.
  - rewrite concat_cons by apply split_go_nonempty. rewrite IH.
    apply prefix_append in Hpre as [rest Hrest].
    unfold pat in *. simpl in Hrest. injection Hrest as -> ->.
    simpl. rewrite Nat.sub_0_r, behind_append. done.
  - pose proof (IH 0) as IH0. pose proof (split_go_nonempty s 0) as Hne.
    destruct (split_go pat 0 s) as [|piece pieces]; [done|].
    rewrite concat_String, IH0. by destruct s.
Qed.




End Scan.

(** One more character of the text is compared with the placeholder. *)
Ltac next_character H :=
  rewrite !append_String in H; injection H as -> H.

Section Placeholder.

Let pat := "{{count}}".






End Placeholder.


Example formatPlural_one :
  formatPlural (Integer 1) "{{count}} item" "{{count}} items" = "{{count}} item".
Proof. reflexivity. Qed.

Example formatPlural_many :
  formatPlural (Integer 5) "item" "{{count}} of {{count}} items" = "5 of 5 items"
  ∧ formatPlural (Integer 0) "item" "{{count}} items" = "0 items"
  ∧ formatPlural (Integer (-2)) "item" "{{count}} items" = "-2 items"
  ∧ formatPlural (NonInteger "1.5") "item" "{{count}} items" = "1.5 items".
Proof. by vm_compute. Qed.

End HelpersFacts.

(** ** The generators *)

Module GeneratorFacts.

Import TranslationTypes StringFacts.



Lemma generate_object_nil indent :
  generateInterfaceProperties (JS.Object []) indent = Some EmptyString.
Proof. reflexivity. Qed.





Lemma substring_all (s : string) : String.substring 0 (String.length s) s = s.
Proof. induction s as [|x s IH]; [done|]. simpl. by rewrite IH. Qed.

Lemma substring_append_l (a b : string) :
  String.substring 0 (String.length a) (a +:+ b) = a.
Proof.
  induction a as [|x a IH]; [by destruct b|].
  rewrite append_String. simpl. by rewrite IH.
Qed.

Lemma substring_append_r (a b : string) :
  String.substring (String.length a) (String.length b) (a +:+ b) = b.
Proof.
  induction a as [|x a IH]; [apply substring_all|].
  rewrite append_String. simpl. apply IH.
Qed.


Lemma is_json_append (namespace : string) : is_json (namespace +:+ ".json") = true.
Proof.
  unfold is_json. rewrite length_append. simpl String.length.
  apply andb_true_iff. split; [apply Nat.leb_le; lia|].
  replace (String.length namespace + 5 - 5) with (String.length namespace) by lia.
  pose proof (substring_append_r namespace ".json") as Hext.
  simpl String.length in Hext. by rewrite Hext.
Qed.

Lemma basename_json_append (namespace : string) :
  basename_json (namespace +:+ ".json") = namespace.
Proof.
  unfold basename_json. rewrite length_append. simpl String.length.
  replace (String.length namespace + 5 - 5) with (String.length namespace) by lia.
  apply substring_append_l.
Qed.


Lemma own_assign k k' v props :
  JS.own k (assign k' v props)
  = if String.eqb k k' then Some v else JS.own k props.
Proof.
  induction props as [|[k0 v0] props IH]; simpl.
  - by destruct (String.eqb k k').
  - destruct (String.eqb_spec k' k0) as [->|Hne]; simpl.
    + by destruct (String.eqb k k0).
    + rewrite IH. destruct (String.eqb_spec k k0) as [->|]; [|done].
      by destruct (String.eqb_spec k0 k').
Qed.

Section Bundle.

Context (JSON_parse : string → option JS.value).
Context (JSON_stringify : JS.value → string).
Context (dir : gmap string string).






End Bundle.


Example generateInterfaceProperties_common :
  generateInterfaceProperties Sample.common_en 2
  = Some ("  nav: {" +:+ String "010"
            ("    back: string;" +:+ String "010"
               ("  };" +:+ String "010" EmptyString))).
Proof. reflexivity. Qed.

End GeneratorFacts.

(** ** Content hashes *)

Module HashFacts.

Import HashTranslations StringFacts Sample.

Lemma hex_word_length x : String.length (MD5.hex_word x) = 8.
Proof. reflexivity. Qed.

Lemma hex_digit_is_hex x : MD5.is_hex_digit (MD5.hex_digit x) = true.
Proof.
  unfold MD5.hex_digit. destruct (Z.to_nat x) as [|n]; [reflexivity|].
  do 15 (destruct n as [|n]; [reflexivity|]). by destruct n.
Qed.

Lemma hex_word_is_hex x :
  Forall (λ c, MD5.is_hex_digit c = true) (list_ascii_of_string (MD5.hex_word x)).
Proof.
  unfold MD5.hex_word, MD5.hex_byte. simpl.
  repeat (apply Forall_cons; split; [apply hex_digit_is_hex|]).
  apply Forall_nil_2.
Qed.

(** The hash is the first word of the digest, in hexadecimal. *)
Lemma generateHash_word fs filePath file :
  fs !! filePath = Some file →
  ∃ word, generateHash fs filePath = Some (MD5.hex_word word).
Proof.
  intros Hfile. unfold generateHash, MD5.digest_hex. rewrite Hfile.
  cbn [fmap option_fmap option_map mbind option_bind].
  eexists. reflexivity.
Qed.


(** The digest agrees with the test suite of RFC 1321. *)
Example digest_of_nothing :
  MD5.digest_hex [] = "d41d8cd98f00b204e9800998ecf8427e".
Proof. by vm_compute. Qed.

Example digest_of_abc :
  MD5.digest_hex (list_byte_of_string "abc") = "900150983cd24fb0d6963f7d28e17f72".
Proof. by vm_compute. Qed.

Example digest_of_eighty_digits :
  MD5.digest_hex
    (list_byte_of_string
       ("1234567890123456789012345678901234567890"
        +:+ "1234567890123456789012345678901234567890"))
  = "57edf4a22be3c955ac49da2e2107b67a".
Proof. by vm_compute. Qed.



End HashFacts.

(** ** The provider, continued *)

Module ProviderInvariants.

Import Provider Notions Sample ListFacts ProviderFacts.

Section Facts.

Context (P : Props).

(** *** What the operations leave alone, continued *)

Lemma loadTranslations_frame r nss w :
  let w' := loadTranslationsForNamespaces P r nss w in
  localStorage w' = localStorage w
  ∧ console w' = console w
  ∧ translations (hooks w') = translations (hooks w).
Proof.
  unfold loadTranslationsForNamespaces.
  destruct (decide _); [done|]. destruct nss; simpl; [|done].
  repeat split. apply (left_id_L ∅ (∪)).
Qed.

Lemma resume_storage i resp w :
  localStorage (resume P i resp w) = localStorage w.
Proof.
  unfold resume. destruct (tasks w !! i) as [task|]; [|done].
  destruct resp, (task_rest task); done.
Qed.

Lemma t_frame r key ns w :
  let w' := (t P r key ns w).1 in
  closure w' = closure w
  ∧ localStorage w' = localStorage w
  ∧ language (hooks w') = language (hooks w)
  ∧ translations (hooks w') = translations (hooks w).
Proof.
  unfold t, loadTranslationsForNamespaces.
  destruct (lookup P r key ns); simpl;
    (destruct (decide (ns ∈ _)); [done|]);
    (destruct (decide (_ ≠ _)); [|done]);
    by destruct (decide (_ = _)).
Qed.

Lemma loadNamespaces_frame r nss w :
  let w' := loadNamespaces P r nss w in
  closure w' = closure w
  ∧ localStorage w' = localStorage w
  ∧ language (hooks w') = language (hooks w)
  ∧ translations (hooks w') = translations (hooks w).
Proof.
  unfold loadNamespaces. destruct (0 <? _)%nat; [|done].
  destruct (loadTranslations_hooks_frame P r
              (filter (λ ns, ns ∉ loadedNamespaces r) nss)
              (setLoadedNamespaces
                 (λ prev, prev ∪ list_to_set (filter (λ ns, ns ∉ loadedNamespaces r) nss)) w))
    as (Hl & _ & Hc).
  destruct (loadTranslations_frame r
              (filter (λ ns, ns ∉ loadedNamespaces r) nss)
              (setLoadedNamespaces
                 (λ prev, prev ∪ list_to_set (filter (λ ns, ns ∉ loadedNamespaces r) nss)) w))
    as (Hs & _ & Ht).
  cbv zeta in *. by rewrite Hl, Hc, Hs, Ht.
Qed.

(** *** The language kept in [localStorage] *)

Lemma runEffects_storage r w :
  localStorage (runEffects P r w) = <["language" := language r]> (localStorage w)
  ∧ closure (runEffects P r w) = closure w
  ∧ language (hooks (runEffects P r w)) = language (hooks w).
Proof.
  unfold runEffects, languageEffect. destruct (decide _); [done|].
  destruct (loadTranslations_hooks_frame P r (elements (loadedNamespaces r))
              (storageEffect r w)) as (Hl & _ & Hc).
  destruct (loadTranslations_frame r (elements (loadedNamespaces r))
              (storageEffect r w)) as (Hs & _).
  cbv zeta in *. by rewrite Hl, Hc, Hs.
Qed.

Lemma mount_saved storage : saved_language (mount P storage).
Proof.
  unfold saved_language, mount.
  destruct (runEffects_storage (initialHooks P storage)
              {| hooks := initialHooks P storage; closure := initialHooks P storage;
                 tasks := []; network := []; console := [];
                 localStorage := storage |}) as (Hs & Hc & _).
  rewrite Hs, Hc. simpl. apply lookup_insert_eq.
Qed.

Lemma render_saved w : saved_language w → saved_language (render P w).
Proof.
  unfold saved_language, render. intros Hw. case_bool_decide as Hchanged.
  - destruct (runEffects_storage (hooks w) (with_closure (hooks w) w))
      as (Hs & Hc & _).
    rewrite Hs, Hc. simpl. apply lookup_insert_eq.
  - simpl. rewrite Hw. f_equal. symmetry.
    by destruct (decide (language (hooks w) = language (closure w))).
Qed.

Lemma step_saved w e : saved_language w → saved_language (step P w e).
Proof.
  intros Hw. destruct e as [|key ns|nss|lang|i resp]; simpl.
  - by apply render_saved.
  - unfold saved_language.
    destruct (t_frame (closure w) key ns w) as (Hc & Hs & _).
    cbv zeta in *. by rewrite Hc, Hs.
  - unfold saved_language.
    destruct (loadNamespaces_frame (closure w) nss w) as (Hc & Hs & _).
    cbv zeta in *. by rewrite Hc, Hs.
  - done.
  - unfold saved_language. rewrite resume_storage.
    by rewrite (proj2 (proj2 (resume_hooks_frame P i resp w))).
Qed.

Lemma run_saved w es : saved_language w → saved_language (run P w es).
Proof.
  revert w. induction es as [|e es IH]; intros w Hw; [done|].
  simpl. by apply IH, step_saved.
Qed.

(** The language chosen survives a reload when, and only when,
    [isSupportedLanguage] accepts it. *)
Theorem selected_language_survives_reload storage es :
  let w := run P (mount P storage) es in
  let lang := language (closure w) in
  localStorage w !! "language" = Some lang
  ∧ language (hooks (mount P (localStorage w)))
    = (if negb (String.eqb lang "") && isSupportedLanguage P lang
       then lang else defaultLanguage P)
  ∧ (∀ lang',
       localStorage (run P w [CallSetLanguage lang'; Render]) !! "language"
       = Some lang').
Proof.
  intros w lang.
  pose proof (run_saved _ es (mount_saved storage)) as Hw. fold w in Hw.
  split; [done|]. split.
  - unfold mount.
    rewrite (proj2 (proj2 (runEffects_storage _ _))). simpl.
    unfold getInitialLanguage. by rewrite Hw.
  - intros lang'.
    pose proof (run_saved w [CallSetLanguage lang'; Render] Hw) as Hw'.
    rewrite Hw'. f_equal. simpl. unfold render.
    case_bool_decide; [|done].
    by rewrite (proj1 (proj2 (runEffects_storage _ _))).
Qed.

(** *** Namespaces asked for are tracked *)

Lemma mount_behind storage : closure_behind (mount P storage).
Proof.
  unfold closure_behind, mount.
  rewrite runEffects_loaded, (proj1 (proj2 (runEffects_storage _ _))). done.
Qed.

Lemma step_behind w e : closure_behind w → closure_behind (step P w e).
Proof.
  unfold closure_behind. intros Hw.
  destruct e as [|key ns|nss|lang|i resp].
  - simpl. unfold render. case_bool_decide.
    + by rewrite runEffects_loaded, (proj1 (proj2 (runEffects_storage _ _))).
    + done.
  - etrans; [|apply (step_loaded_mono P w (CallT key ns))]. simpl.
    by rewrite (proj1 (t_frame (closure w) key ns w)).
  - etrans; [|apply (step_loaded_mono P w (CallLoadNamespaces nss))]. simpl.
    by rewrite (proj1 (loadNamespaces_frame (closure w) nss w)).
  - done.
  - etrans; [|apply (step_loaded_mono P w (Respond i resp))]. simpl.
    by rewrite (proj2 (proj2 (resume_hooks_frame P i resp w))).
Qed.

Lemma run_behind w es : closure_behind w → closure_behind (run P w es).
Proof.
  revert w. induction es as [|e es IH]; intros w Hw; [done|].
  simpl. by apply IH, step_behind.
Qed.

Lemma loadNamespaces_tracks w nss ns :
  closure_behind w → ns ∈ nss →
  ns ∈ loadedNamespaces (hooks (loadNamespaces P (closure w) nss w)).
Proof.
  intros Hw Hin. rewrite loadNamespaces_loaded.
  destruct (decide (ns ∈ loadedNamespaces (closure w))) as [Hr|Hr].
  - apply elem_of_union_l. by apply Hw.
  - assert (Hnew : ns ∈ filter (λ ns, ns ∉ loadedNamespaces (closure w)) nss).
    { by apply list_elem_of_filter. }
    apply elem_of_union_r.
    destruct (0 <? length (filter (λ ns, ns ∉ loadedNamespaces (closure w)) nss))%nat
      eqn:Hlen.
    + by apply elem_of_list_to_set.
    + apply Nat.ltb_ge in Hlen.
      destruct (filter _ nss); [by apply elem_of_nil in Hnew|simpl in Hlen; lia].
Qed.

Lemma t_tracks w key ns :
  closure_behind w →
  ns ∈ loadedNamespaces (hooks (t P (closure w) key ns w).1).
Proof.
  intros Hw. rewrite t_loaded.
  destruct (decide (ns ∈ loadedNamespaces (closure w))) as [Hr|Hr].
  - apply elem_of_union_l. by apply Hw.
  - set_solver.
Qed.

(** Whatever has happened to a mounted provider, a namespace given to
    [loadNamespaces] or to [t] is in [loadedNamespaces] from then on. *)
Theorem requested_namespaces_are_tracked storage es :
  let w := run P (mount P storage) es in
  (∀ nss ns later, ns ∈ nss →
     ns ∈ loadedNamespaces (hooks (run P w (CallLoadNamespaces nss :: later))))
  ∧ (∀ key ns later,
       ns ∈ loadedNamespaces (hooks (run P w (CallT key ns :: later)))).
Proof.
  intros w.
  pose proof (run_behind _ es (mount_behind storage)) as Hw. fold w in Hw.
  split.
  - intros nss ns later Hin. simpl.
    assert (Hgrow : ∀ w0 es0, loadedNamespaces (hooks w0)
                              ⊆ loadedNamespaces (hooks (run P w0 es0))).
    { intros w0 es0. revert w0. induction es0 as [|e es0 IH]; intros w0; [done|].
      simpl. etrans; [apply (step_loaded_mono P w0 e)|apply IH]. }
    apply Hgrow. by apply loadNamespaces_tracks.
  - intros key ns later. simpl.
    assert (Hgrow : ∀ w0 es0, loadedNamespaces (hooks w0)
                              ⊆ loadedNamespaces (hooks (run P w0 es0))).
    { intros w0 es0. revert w0. induction es0 as [|e es0 IH]; intros w0; [done|].
      simpl. etrans; [apply (step_loaded_mono P w0 e)|apply IH]. }
    apply Hgrow. by apply t_tracks.
Qed.

(** *** [isLoading] comes down *)

Lemma loadTranslations_settled r nss w :
  settled w → settled (loadTranslationsForNamespaces P r nss w).
Proof.
  unfold settled, loadTranslationsForNamespaces. intros Hw.
  destruct (decide _); [done|]. destruct nss; simpl; [done|].
  intros Htasks. by apply app_nil in Htasks as [_ ?].
Qed.

Lemma step_settled w e : settled w → settled (step P w e).
Proof.
  intros Hw. destruct e as [|key ns|nss|lang|i resp]; simpl.
  - unfold render. case_bool_decide; [|done].
    unfold runEffects, languageEffect. destruct (decide _); [done|].
    by apply loadTranslations_settled.
  - unfold t.
    assert (settled
      (if decide (ns ∈ loadedNamespaces (closure w)) then w
       else
         let w0 := setLoadedNamespaces (λ prev, prev ∪ {[ns]}) w in
         if decide (language (closure w) ≠ defaultLanguage P)
         then loadTranslationsForNamespaces P (closure w) [ns] w0 else w0)).
    { destruct (decide (ns ∈ _)); [done|]. simpl.
      destruct (decide (_ ≠ _)); [|done]. by apply loadTranslations_settled. }
    by destruct (lookup P (closure w) key ns).
  - unfold loadNamespaces. destruct (0 <? _)%nat; [|done].
    by apply loadTranslations_settled.
  - done.
  - unfold settled, resume.
    destruct (tasks w !! i) as [task|] eqn:Hi; [|done].
    destruct resp, (task_rest task); simpl; try done;
      intros Htasks; apply (f_equal length) in Htasks;
      rewrite length_insert in Htasks; apply lookup_lt_Some in Hi;
      simpl in Htasks; lia.
Qed.

Lemma mount_settled storage : settled (mount P storage).
Proof.
  unfold mount, runEffects, languageEffect. destruct (decide _); [done|].
  by apply loadTranslations_settled.
Qed.

(** Whatever has happened to a mounted provider, once no fetch is
    awaited any more [isLoading] is false. *)
Theorem idle_provider_is_not_loading storage es :
  tasks (run P (mount P storage) es) = [] →
  isLoading (hooks (run P (mount P storage) es)) = false.
Proof.
  assert (Hrun : ∀ es w, settled w → settled (run P w es)).
  { clear es. intros es. induction es as [|e es IH]; intros w Hw; [done|].
    simpl. by apply IH, step_settled. }
  apply (Hrun es), mount_settled.
Qed.

(** *** A fetch that succeeds *)

(** When the response to the last fetch of a batch for a namespace
    carries data, the namespace's entry in [translations] is that data
    once the batch is through, the entries of the namespaces outside the
    batch are as they were, and [t] reads the namespace from the data
    alone (if the data is truthy): a key the data lacks is not looked up
    in [defaultTranslations]. *)
Theorem fetched_data_replaces_namespace i w task resps k ns data :
  tasks w !! i = Some task →
  let nss := task_namespace task :: task_rest task in
  length resps = length nss →
  nss !! k = Some ns → resps !! k = Some (OkJson data) →
  ns ∉ drop (S k) nss →
  let w' := respond_all P i resps w in
  translations (hooks w') !! ns = Some data
  ∧ (∀ other, other ∉ nss → newTranslations task !! other = None →
       translations (hooks w') !! other = translations (hooks w) !! other)
  ∧ (JS.truthy data = true →
     ∀ key, lookup P (hooks w') key ns = walk key data (JS.split "." key)).
Proof.
  intros Hi nss Hlen Hns Hresp Hlater w'.
  destruct (respond_all_batch P i w task resps Hi Hlen) as (Hh & _).
  fold nss w' in Hh.
  assert (Hentry : translations (hooks w') !! ns = Some data).
  { rewrite Hh. simpl. apply lookup_union_Some_l.
    by rewrite (fill_lookup_last P nss resps _ k ns (OkJson data)). }
  split; [done|]. split.
  - intros other Hother Hnew. rewrite Hh. simpl.
    rewrite lookup_union_r; [done|].
    by rewrite fill_lookup_notin.
  - intros Htruthy key. unfold lookup, JS.index. rewrite Hentry. simpl.
    by rewrite Htruthy.
Qed.

(** *** A switch of language *)

(** A switch to a language that is not the default one, once rendered,
    has started one batch for the new language over the namespaces of
    [loadedNamespaces], each once: the first is fetched, the others wait
    in the batch; [translations] is as it was, so [t] keeps returning the
    texts of the language before until the batch is through. *)
Theorem language_switch_reloads_tracked_namespaces w lang :
  lang ≠ language (closure w) → lang ≠ defaultLanguage P →
  let w' := run P w [CallSetLanguage lang; Render] in
  ∃ nss,
    NoDup nss
    ∧ (∀ ns, ns ∈ nss ↔ ns ∈ loadedNamespaces (hooks w))
    ∧ network w' = network w ++ (request P lang <$> take 1 nss)
    ∧ tasks w'
      = tasks w
        ++ match nss with
           | [] => []
           | ns :: rest => [{| task_language := lang; task_namespace := ns;
                               task_rest := rest; newTranslations := ∅ |}]
           end
    ∧ isLoading (hooks w') = bool_decide (nss ≠ [])
    ∧ translations (hooks w') = translations (hooks w)
    ∧ language (closure w') = lang.
Proof.
  intros Hchanged Hdefault w'.
  exists (elements (loadedNamespaces (hooks w))).
  split; [apply NoDup_elements|]. split; [intros ns; apply elem_of_elements|].
  unfold w'. simpl. unfold render. simpl.
  rewrite bool_decide_true by done.
  unfold runEffects, languageEffect, loadTranslationsForNamespaces. simpl.
  destruct (decide (lang = defaultLanguage P)); [done|].
  destruct (elements (loadedNamespaces (hooks w))) as [|ns rest]; simpl.
  - rewrite !app_nil_r. repeat split. apply (left_id_L ∅ (∪)).
  - done.
Qed.

(** *** What [t] reports *)






End Facts.

Lemma idle_provider_is_not_loading_witness :
  let P := app manifest_es in
  let es := [Respond 0 (OkJson common_es); Render] in
  tasks (run P (mount P (saved "es")) es) = []
  ∧ isLoading (hooks (run P (mount P (saved "es")) es)) = false.
Proof.
  intros P es. split; [reflexivity|].
  apply (idle_provider_is_not_loading P (saved "es") es). reflexivity.
Defined.

Lemma fetched_data_replaces_namespace_witness :
  let P := app manifest_es in
  let w := mount P (saved "es") in
  let w' := respond_all P 0 [OkJson common_es] w in
  translations (hooks w') !! "common" = Some common_es
  ∧ lookup P (hooks w') "nav.back" "common" = Some "Volver".
Proof.
  intros P w w'.
  destruct (fetched_data_replaces_namespace P 0 w
              {| task_language := "es"; task_namespace := "common";
                 task_rest := []; newTranslations := ∅ |}
              [OkJson common_es] 0 "common" common_es)
    as (Hentry & _ & Hread).
  - reflexivity.
  - reflexivity.
  - reflexivity.
  - reflexivity.
  - apply not_elem_of_nil.
  - split; [exact Hentry|]. exact (Hread eq_refl "nav.back").
Defined.

Lemma language_switch_reloads_tracked_namespaces_witness :
  let P := app manifest_es in
  let w := mount P ∅ in
  network (run P w [CallSetLanguage "es"; Render])
  = [request P "es" "common"].
Proof.
  intros P w.
  destruct (language_switch_reloads_tracked_namespaces P w "es")
    as (nss & _ & _ & Hnetwork & _).
  - by vm_compute.
  - by vm_compute.
  - reflexivity.
Defined.


End ProviderInvariants.

(** ** The hook *)

Module HookFacts.

Import Provider Notions Sample ProviderFacts ProviderInvariants.

Section Facts.

Context (P : Props).

Lemma t_tracked_reads r key ns w :
  ns ∈ loadedNamespaces r →
  let w' := (t P r key ns w).1 in
  hooks w' = hooks w ∧ network w' = network w ∧ tasks w' = tasks w.
Proof.
  intros Hns. unfold t. destruct (decide (ns ∈ _)); [|done].
  by destruct (lookup P r key ns).
Qed.

(** Once the effect of the hook has run and the provider has rendered
    again, the [t] the hook hands out only reads: for a namespace of the
    hook's list, the first one when the caller names none, it updates no
    cell and starts no fetch, and returns what the provider's [t] returns
    for that namespace. *)
Theorem mounted_hook_only_reads storage es nss key namespace ns :
  Hook.nsToUse nss namespace = Some ns → ns ∈ nss →
  let w := run P (mount P storage) (es ++ [CallLoadNamespaces nss; Render]) in
  let out := Hook.t P (closure w) nss key namespace w in
  hooks out.1 = hooks w
  ∧ network out.1 = network w
  ∧ tasks out.1 = tasks w
  ∧ out.2 = (Provider.t P (closure w) key ns w).2.
Proof.
  intros Hto Hin w out.
  assert (Hns : ns ∈ loadedNamespaces (closure w)).
  { unfold w, run. rewrite foldl_app. simpl.
    fold (run P (mount P storage) es).
    set (w0 := run P (mount P storage) es).
    pose proof (run_behind P _ es (mount_behind P storage)) as Hw0. fold w0 in Hw0.
    pose proof (loadNamespaces_tracks P w0 nss ns Hw0 Hin) as Htracked.
    unfold render. case_bool_decide.
    - by rewrite (proj1 (proj2 (runEffects_storage P _ _))).
    - done. }
  unfold out, Hook.t. rewrite Hto. simpl.
  destruct (t_tracked_reads (closure w) key ns w Hns) as (Hh & Hn & Ht).
  done.
Qed.

End Facts.

Lemma mounted_hook_only_reads_witness :
  let P := app manifest_es in
  let w := run P (mount P (saved "es"))
             ([Respond 0 (OkJson common_es)]
              ++ [CallLoadNamespaces ["common"; "dashboard"]; Render]) in
  network (Hook.t P (closure w) ["common"; "dashboard"] "nav.back" None w).1
  = network w
  ∧ (Hook.t P (closure w) ["common"; "dashboard"] "nav.back" None w).2 = "Volver".
Proof.
  intros P w.
  destruct (mounted_hook_only_reads P (saved "es") [Respond 0 (OkJson common_es)]
              ["common"; "dashboard"] "nav.back" None "common")
    as (_ & Hnetwork & _ & Hvalue).
  - reflexivity.
  - apply list_elem_of_here.
  - split; [exact Hnetwork|]. etrans; [exact Hvalue|]. reflexivity.
Defined.

End HookFacts.

(** ** Language configuration *)

Module LanguageConfigFacts.

Import LanguageConfig.

Lemma find_first (languages : list LanguageConfig) lang l :
  List.find (λ l, String.eqb (code l) lang) languages = Some l →
  ∃ before after,
    languages = before ++ l :: after
    ∧ code l = lang
    ∧ ∀ l', l' ∈ before → code l' ≠ lang.
Proof.
  induction languages as [|l0 languages IH]; [done|]. simpl.
  destruct (String.eqb_spec (code l0) lang) as [Heq|Hne].
  - intros [= <-]. exists [], languages. split; [done|]. split; [done|].
    by intros l' ?%elem_of_nil.
  - intros Hfind. destruct (IH Hfind) as (before & after & -> & Hcode & Hbefore).
    exists (l0 :: before), after. split; [done|]. split; [done|].
    intros l' [->|Hin]%elem_of_cons; [done|by apply Hbefore].
Qed.

Lemma supported_iff_listed (languages : list LanguageConfig) lang :
  isSupportedLanguage languages lang = true
  ↔ lang ∈ getSupportedLanguageCodes languages.
Proof.
  unfold isSupportedLanguage, getSupportedLanguageCodes.
  induction languages as [|l languages IH]; simpl.
  - split; [done|by intros ?%elem_of_nil].
  - rewrite orb_true_iff, IH, elem_of_cons.
    destruct (String.eqb_spec (code l) lang); naive_solver.
Qed.

Lemma supported_iff_found (languages : list LanguageConfig) lang :
  isSupportedLanguage languages lang = true
  ↔ is_Some (getLanguageByCode languages lang).
Proof.
  unfold isSupportedLanguage, getLanguageByCode.
  induction languages as [|l languages IH]; simpl.
  - split; [done|by intros [? ?]].
  - destruct (String.eqb (code l) lang); simpl; [|done].
    split; [by eexists|done].
Qed.

(** The three lookups of a language configuration agree: a code is
    supported exactly when it is among the codes listed and exactly when
    [getLanguageByCode] finds a configuration for it; what is found is the
    first configuration of the list that carries the code. *)
Theorem language_lookups_agree (languages : list LanguageConfig) lang :
  (isSupportedLanguage languages lang = true
   ↔ lang ∈ getSupportedLanguageCodes languages)
  ∧ (isSupportedLanguage languages lang = true
     ↔ is_Some (getLanguageByCode languages lang))
  ∧ (∀ l, getLanguageByCode languages lang = Some l →
       ∃ before after,
         languages = before ++ l :: after
         ∧ code l = lang
         ∧ ∀ l', l' ∈ before → code l' ≠ lang).
Proof.
  split; [apply supported_iff_listed|]. split; [apply supported_iff_found|].
  intros l. apply find_first.
Qed.

(** A provider whose [isSupportedLanguage] is the one of a language
    configuration that lists the default language starts, whatever
    [localStorage] holds, in a language of the configuration:
    [getLanguageByCode] finds the language of the first render. *)
Theorem provider_starts_in_configured_language
    (P : Provider.Props) (languages : list LanguageConfig) storage :
  (∀ lang, Provider.isSupportedLanguage P lang
           = isSupportedLanguage languages lang) →
  isSupportedLanguage languages (Provider.defaultLanguage P) = true →
  ∃ l, getLanguageByCode languages
         (Provider.language (Provider.hooks (Provider.mount P storage))) = Some l
       ∧ code l = Provider.language (Provider.hooks (Provider.mount P storage)).
Proof.
  intros Hsame Hdefault.
  assert (Hlang : isSupportedLanguage languages
                    (Provider.language (Provider.hooks (Provider.mount P storage)))
                  = true).
  { unfold Provider.mount.
    rewrite (proj2 (proj2 (ProviderInvariants.runEffects_storage P _ _))). simpl.
    unfold Provider.getInitialLanguage.
    destruct (storage !! "language") as [savedLanguage|]; [|done].
    destruct (negb _ && _) eqn:Hsaved; [|done].
    apply andb_true_iff in Hsaved as [_ Hsaved]. by rewrite <- Hsame. }
  apply supported_iff_found in Hlang as [l Hl]. exists l. split; [done|].
  by destruct (find_first _ _ _ Hl) as (_ & _ & _ & Hcode & _).
Qed.

Lemma provider_starts_in_configured_language_witness :
  let P := {| Provider.defaultLanguage := "en";
              Provider.defaultTranslations := {[ "common" := Sample.common_en ]};
              Provider.translationManifest := ∅;
              Provider.isSupportedLanguage := isSupportedLanguage COMMON_LANGUAGES;
              Provider.localesPath := "/locales";
              Provider.localesHashedPath := "/locales-hashed" |} in
  ∃ l, getLanguageByCode COMMON_LANGUAGES
         (Provider.language (Provider.hooks (Provider.mount P (Sample.saved "ja"))))
       = Some l
       ∧ code l = Provider.language
                    (Provider.hooks (Provider.mount P (Sample.saved "ja"))).
Proof.
  intros P.
  apply (provider_starts_in_configured_language P COMMON_LANGUAGES (Sample.saved "ja")).
  - reflexivity.
  - reflexivity.
Defined.

End LanguageConfigFacts.

(** ** [hasTranslationKey] *)

Module KeyFacts.

Import Provider TranslationHelpers Notions ProviderFacts ProviderInvariants.





Section Facts.

Context (P : Props).


End Facts.





End KeyFacts.

(** ** [formatRelativeTime] *)

Module RelativeTimeFacts.

Import TranslationHelpers.

Local Open Scope Z_scope.

Section Intl.

Context (rtf_format : string → Z → string → option string).

(** The loop stops at [unit]: the claims about the unit it has chosen. *)
Ltac chosen unit seconds a :=
  exists unit, seconds, (a / seconds);
  split; [set_solver|]; split; [lia|];
  split; [Z.div_mod_to_equations; lia|]; split;
  [intros unit' seconds' Hin Hlt;
   repeat (apply elem_of_cons in Hin as [[= -> ->]|Hin];
           [Z.div_mod_to_equations; lia|]);
   by apply elem_of_nil in Hin
  |reflexivity].

Lemma pick_largest_unit diff :
  diff ≠ 0 →
  ∃ unit secondsInUnit value,
    (unit, secondsInUnit) ∈ units
    ∧ 1 ≤ value
    ∧ secondsInUnit * value ≤ Z.abs diff < secondsInUnit * (value + 1)
    ∧ (∀ unit' seconds', (unit', seconds') ∈ units →
         secondsInUnit < seconds' → Z.abs diff < seconds')
    ∧ pick diff units = Some (if diff <? 0 then value else - value, unit).
Proof.
  intros Hdiff. unfold units, pick.
  assert (Ha : 1 ≤ Z.abs diff) by lia.
  set (a := Z.abs diff) in *. clearbody a.
  destruct (Z.leb_spec 1 (a / 31536000)); [chosen "year" 31536000 a|].
  destruct (Z.leb_spec 1 (a / 2592000)); [chosen "month" 2592000 a|].
  destruct (Z.leb_spec 1 (a / 604800)); [chosen "week" 604800 a|].
  destruct (Z.leb_spec 1 (a / 86400)); [chosen "day" 86400 a|].
  destruct (Z.leb_spec 1 (a / 3600)); [chosen "hour" 3600 a|].
  destruct (Z.leb_spec 1 (a / 60)); [chosen "minute" 60 a|].
  destruct (Z.leb_spec 1 (a / 1)); [chosen "second" 1 a|].
  Z.div_mod_to_equations. lia.
Qed.

(** For two dates less than 2^53 milliseconds apart: the distance counts
    in whole seconds rounded down, so [formatRelativeTime] answers
    "just now" exactly when the date lies in the second that ends with
    [baseDate] (a date one millisecond after [baseDate] is already a
    second away).  Otherwise it has the runtime format the distance in the
    largest of the seven units that fits into it at least once, counted in
    whole units rounded down, negative for a date before [baseDate] and
    positive for one after it. *)
Theorem formatRelativeTime_picks_largest_unit date baseDate locale :
  Z.abs (baseDate - date) < 2 ^ 53 →
  let diff := (baseDate - date) / 1000 in
  (diff = 0 ↔ 0 ≤ baseDate - date < 1000)
  ∧ (diff < 0 ↔ baseDate < date)
  ∧ (diff = 0 →
     formatRelativeTime rtf_format (Valid date) locale (Valid baseDate)
     = Some "just now")
  ∧ (diff ≠ 0 →
     ∃ unit secondsInUnit value,
       (unit, secondsInUnit) ∈ units
       ∧ 1 ≤ value
       ∧ secondsInUnit * value ≤ Z.abs diff < secondsInUnit * (value + 1)
       ∧ (∀ unit' seconds', (unit', seconds') ∈ units →
            secondsInUnit < seconds' → Z.abs diff < seconds')
       ∧ formatRelativeTime rtf_format (Valid date) locale (Valid baseDate)
         = rtf_format locale (if diff <? 0 then value else - value) unit).
Proof.
  intros _ diff.
  split; [unfold diff; Z.div_mod_to_equations; lia|].
  split; [unfold diff; Z.div_mod_to_equations; lia|]. split.
  - intros Hdiff. unfold formatRelativeTime. fold diff. by rewrite Hdiff.
  - intros Hdiff.
    destruct (pick_largest_unit diff Hdiff)
      as (unit & seconds & value & Hin & Hvalue & Hfits & Hlargest & Hpick).
    exists unit, seconds, value. repeat (split; [done|]).
    unfold formatRelativeTime. fold diff. by rewrite Hpick.
Qed.

End Intl.

Lemma formatRelativeTime_picks_largest_unit_witness :
  let rtf_format := λ (locale : string) (value : Z) (unit : string),
                      Some (pretty value +:+ " " +:+ unit) in
  formatRelativeTime rtf_format (Valid 0) "en" (Valid 999) = Some "just now"
  ∧ ((0 - 1) / 1000 < 0 ↔ 0 < 1).
Proof.
  intros rtf_format.
  destruct (formatRelativeTime_picks_largest_unit rtf_format 0 999 "en")
    as (_ & _ & Hnow & _); [done|].
  destruct (formatRelativeTime_picks_largest_unit rtf_format 1 0 "en")
    as (_ & Hfuture & _); [done|].
  split; [exact (Hnow eq_refl)|exact Hfuture].
Defined.

Example formatRelativeTime_examples :
  let rtf_format := λ (locale : string) (value : Z) (unit : string),
                      Some (pretty value +:+ " " +:+ unit) in
  formatRelativeTime rtf_format (Valid 0) "en" (Valid 172800000) = Some "-2 day"
  ∧ formatRelativeTime rtf_format (Valid 1) "en" (Valid 0) = Some "1 second"
  ∧ formatRelativeTime rtf_format (Valid 0) "en" (Valid (360 * 86400000))
    = Some "-12 month"
  ∧ formatRelativeTime rtf_format Invalid "en" (Valid 0) = Some "just now".
Proof. by vm_compute. Qed.

End RelativeTimeFacts.

(** ** [interpolate] *)

Module InterpolateFacts.

Import Helpers TranslationHelpers StringFacts HelpersFacts.

Lemma RegExp_identifier key :
  identifier key = true →
  RegExp key = Some (String "{" (String "{" (key +:+ "}}"))).
Proof. intros Hkey. unfold RegExp. by rewrite Hkey. Qed.



Section Scan.

Context (p0 : ascii) (ptail : string).
Let pat := String p0 ptail.

(** A replacement whose expansion does not depend on the match is put in
    as by [replace_go]. *)
Lemma replace_with_constant replacement text' s : ∀ before skip,
  (∀ before after, expand pat before after replacement = text') →
  replace_with pat replacement before skip s = replace_go pat text' skip s.
Proof.
  induction s as [|c s IH]; intros before skip Hconstant; [done|].
  cbn [replace_with replace_go]. destruct skip; [|by apply IH].
  destruct (String.prefix pat (String c s)).
  - by rewrite Hconstant, IH.
  - by rewrite IH.
Qed.

Lemma occurs_tail c s : ¬ occurs pat (String c s) → ¬ occurs pat s.
Proof.
  intros Hfree (before & after & ->). apply Hfree.
  by exists (String c before), after.
Qed.

Lemma replace_with_free replacement s : ∀ before,
  ¬ occurs pat s → replace_with pat replacement before 0 s = s.
Proof.
  induction s as [|c s IH]; intros before Hfree; [done|].
  cbn [replace_with].
  destruct (String.prefix pat (String c s)) eqn:Hpre.
  - exfalso. apply prefix_append in Hpre as [rest Hrest].
    apply Hfree. by exists EmptyString, rest.
  - f_equal. apply IH. by eapply occurs_tail.
Qed.

End Scan.


(** A text that holds none of the placeholders comes back as it is,
    whatever the values are. *)
Theorem interpolate_without_placeholder text variables :
  Forall (λ kv, identifier kv.1 = true
                ∧ ¬ occurs ("{{" +:+ kv.1 +:+ "}}") text) variables →
  interpolate text variables = Some text.
Proof.
  intros Hvariables. unfold interpolate.
  induction Hvariables as [|[key value] variables [Hkey Hfree] _ IH]; [done|].
  cbn [foldl mbind option_bind fst snd]. simpl in Hkey, Hfree.
  rewrite (RegExp_identifier key Hkey). cbn [mbind option_bind].
  by rewrite (replace_with_free "{" ("{" +:+ key +:+ "}}")).
Qed.

(** A value is not always put in as it is: in a value, [$&] stands for
    the placeholder itself, so that the value ["$&"] leaves the text as it
    was, and [$$] stands for one dollar sign. *)
Theorem interpolate_expands_dollar_patterns text key :
  identifier key = true →
  interpolate text [(key, Text "$&")] = Some text
  ∧ interpolate text [(key, Text "$$")]
    = Some (String.concat "$" (split_word ("{{" +:+ key +:+ "}}") text))
  ∧ interpolate text [(key, Text "$")]
    = Some (String.concat "$" (split_word ("{{" +:+ key +:+ "}}") text)).
Proof.
  intros Hkey. unfold interpolate. cbn [foldl mbind option_bind fst snd].
  rewrite (RegExp_identifier key Hkey). cbn [mbind option_bind fst snd String_value].
  split; [|split].
  - rewrite (replace_with_constant "{" ("{" +:+ key +:+ "}}") _
               (String "{" (String "{" (key +:+ "}}")))).
    + rewrite (replace_go_split "{" ("{" +:+ key +:+ "}}")).
      f_equal. apply (concat_split_go "{" ("{" +:+ key +:+ "}}") text 0).
    + intros before after. cbn [expand Ascii.eqb]. simpl.
      by rewrite append_nil_r.
  - rewrite (replace_with_constant "{" ("{" +:+ key +:+ "}}") _ "$") by done.
    by rewrite (replace_go_split "{" ("{" +:+ key +:+ "}}")).
  - rewrite (replace_with_constant "{" ("{" +:+ key +:+ "}}") _ "$") by done.
    by rewrite (replace_go_split "{" ("{" +:+ key +:+ "}}")).
Qed.


Lemma interpolate_without_placeholder_witness :
  interpolate "Hello" [("name", Text "$& and $'")] = Some "Hello".
Proof.
  apply (interpolate_without_placeholder "Hello" [("name", Text "$& and $'")]).
  apply Forall_cons. split; [|apply Forall_nil_2].
  split; [reflexivity|]. intros (before & after & Heq).
  apply (f_equal String.length) in Heq. rewrite !length_append in Heq.
  simpl in Heq. lia.
Defined.

Lemma interpolate_expands_dollar_patterns_witness :
  interpolate "Hi {{name}}" [("name", Text "$&")] = Some "Hi {{name}}"
  ∧ interpolate "Price: {{price}}" [("price", Text "$$5")] = Some "Price: $5".
Proof.
  split.
  - exact (proj1 (interpolate_expands_dollar_patterns "Hi {{name}}" "name" eq_refl)).
  - reflexivity.
Defined.

End InterpolateFacts.

(** ** When the generators throw *)

Module GeneratorErrors.

Import TranslationTypes StringFacts GeneratorFacts.


Section Bundle.

Context (JSON_parse : string → option JS.value).
Context (JSON_stringify : JS.value → string).
Context (dir : gmap string string).





End Bundle.

End GeneratorErrors.

(** ** [hashTranslations] *)

Module PathFacts.

Import Helpers Fs StringFacts HelpersFacts.

(** Texts that begin with known characters, put in that form. *)
Ltac heads H :=
  repeat (rewrite append_nil_l in H || rewrite append_String in H).

Lemma has_slash_String c s :
  has_slash (String c s) = Ascii.eqb "/" c || has_slash s.
Proof. reflexivity. Qed.

Lemma has_slash_append a b : has_slash (a +:+ b) = has_slash a || has_slash b.
Proof.
  induction a as [|c a IH]; [done|].
  by rewrite append_String, !has_slash_String, IH, orb_assoc.
Qed.

Lemma has_slash_join a b : has_slash (a +:+ String "/" b) = true.
Proof. rewrite has_slash_append, has_slash_String. by destruct (has_slash a). Qed.

(** A path is the join of its directory and its name in one way only. *)
Lemma path_join_inj a b x y :
  has_slash x = false → has_slash y = false →
  path_join a x = path_join b y → a = b ∧ x = y.
Proof.
  unfold path_join. intros Hx Hy. revert b.
  induction a as [|c a IH]; intros [|c' b] Heq.
  - by injection Heq.
  - heads Heq. injection Heq as <- ->.
    by rewrite has_slash_join in Hx.
  - heads Heq. injection Heq as -> <-.
    by rewrite has_slash_join in Hy.
  - heads Heq. injection Heq as <- Heq.
    by destruct (IH b Heq) as [-> ->].
Qed.

(** Up to the first separator two texts that are equal are equal. *)
Lemma first_slash_inj a b x y :
  has_slash a = false → has_slash b = false →
  a +:+ "/" +:+ x = b +:+ "/" +:+ y → a = b ∧ x = y.
Proof.
  revert b. induction a as [|c a IH]; intros [|c' b] Ha Hb Heq.
  - by injection Heq.
  - heads Heq. injection Heq as <- _.
    by rewrite has_slash_String in Hb.
  - heads Heq. injection Heq as -> _.
    by rewrite has_slash_String in Ha.
  - heads Heq. injection Heq as <- Heq.
    rewrite has_slash_String in Ha, Hb.
    apply orb_false_iff in Ha as [_ Ha]. apply orb_false_iff in Hb as [_ Hb].
    by destruct (IH b Ha Hb Heq) as [-> ->].
Qed.

Lemma append_inj_l a x y : a +:+ x = a +:+ y → x = y.
Proof.
  induction a as [|c a IH]; [done|].
  rewrite !append_String. intros [= Heq]. by apply IH.
Qed.

(** Texts with ends of the same length. *)
Lemma append_inj_length a b s t :
  String.length s = String.length t → a +:+ s = b +:+ t → a = b ∧ s = t.
Proof.
  intros Hlen. revert b. induction a as [|c a IH]; intros [|c' b] Heq.
  - done.
  - apply (f_equal String.length) in Heq.
    rewrite append_nil_l, length_append in Heq. simpl in Heq. lia.
  - apply (f_equal String.length) in Heq.
    rewrite append_nil_l, length_append in Heq. simpl in Heq. lia.
  - heads Heq. injection Heq as <- Heq.
    by destruct (IH b Heq) as [-> ->].
Qed.

Lemma entry_name_join dir name :
  name ≠ EmptyString → has_slash name = false →
  entry_name dir (path_join dir name) = Some name.
Proof.
  intros Hname Hslash. unfold entry_name, path_join.
  assert (Hpre : String.prefix (dir +:+ "/") (dir +:+ "/" +:+ name) = true).
  { apply prefix_append. exists name. by rewrite append_assoc. }
  rewrite Hpre.
  replace (String.length dir + 1) with (String.length (dir +:+ "/"))
    by (by rewrite length_append).
  rewrite <- append_assoc, behind_append, Hslash.
  by destruct name.
Qed.

Lemma entry_name_Some dir path name :
  entry_name dir path = Some name →
  path = path_join dir name ∧ name ≠ EmptyString ∧ has_slash name = false.
Proof.
  unfold entry_name.
  destruct (String.prefix (dir +:+ "/") path) eqn:Hpre; [|done].
  apply prefix_append in Hpre as [rest ->].
  replace (String.length dir + 1) with (String.length (dir +:+ "/"))
    by (by rewrite length_append).
  rewrite behind_append.
  destruct (String.eqb_spec rest "") as [->|Hrest]; [done|]. simpl.
  destruct (has_slash rest) eqn:Hslash; [done|]. intros [= <-].
  unfold path_join. by rewrite append_assoc.
Qed.

Lemma NoDup_omap {X Y : Type} (f : X → option Y) (l : list X) :
  (∀ x x' y, f x = Some y → f x' = Some y → x = x') →
  NoDup l → NoDup (omap f l).
Proof.
  intros Hinj. induction 1 as [|x l Hx Hl IH]; [constructor|]. simpl.
  destruct (f x) as [y|] eqn:Hy; [|done]. constructor; [|done].
  intros (x' & Hin & Hy')%list_elem_of_omap.
  by rewrite (Hinj x x' y Hy Hy') in Hx.
Qed.

(** What [readdirSync] lists: the names of the files and directories
    that lie in the directory, each once. *)
Lemma readdirSync_lists d dir names :
  readdirSync d dir = Some names →
  dir ∈ directories d
  ∧ NoDup names
  ∧ ∀ name, name ∈ names
            ↔ name ≠ EmptyString ∧ has_slash name = false
              ∧ path_join dir name ∈ dom (files d) ∪ directories d.
Proof.
  unfold readdirSync. destruct (decide (dir ∈ directories d)); [|done].
  intros [= <-]. split; [done|]. split.
  - apply NoDup_omap; [|apply NoDup_elements].
    intros p p' name [-> _]%entry_name_Some [-> _]%entry_name_Some. done.
  - intros name. rewrite list_elem_of_omap. split.
    + intros (p & Hp%elem_of_elements & (-> & Hname & Hslash)%entry_name_Some).
      done.
    + intros (Hname & Hslash & Hp). exists (path_join dir name).
      split; [by apply elem_of_elements|by apply entry_name_join].
Qed.

End PathFacts.

Module HashedCopiesFacts.

Import Helpers HashTranslations Fs HashedCopies StringFacts HelpersFacts PathFacts.
Import GeneratorFacts HashFacts.

(** *** Loops that can throw *)

Lemma each_app {X S : Type} (body : S → X → option S) xs ys : ∀ s,
  each body s (xs ++ ys) = each body s xs ≫= λ s', each body s' ys.
Proof.
  induction xs as [|x xs IH]; intros s; [done|]. simpl.
  destruct (body s x) as [s'|]; [apply IH|done].
Qed.

Lemma each_invariant {X S : Type} (I : S → Prop) (body : S → X → option S) xs :
  (∀ s x s', x ∈ xs → I s → body s x = Some s' → I s') →
  ∀ s s', I s → each body s xs = Some s' → I s'.
Proof.
  induction xs as [|x xs IH]; intros Hbody s s' Hs; [by intros [= <-]|].
  simpl. destruct (body s x) as [s1|] eqn:Hs1; [|done]. simpl.
  apply IH.
  - intros s2 x2 s3 Hin. apply Hbody. by right.
  - by apply (Hbody s x s1); [left| |].
Qed.

(** *** What the operations on the disk change *)

Lemma mkdirSync_frame d path d' :
  mkdirSync d path = Some d' →
  files d' = files d ∧ directories d ⊆ directories d'.
Proof.
  unfold mkdirSync. case_bool_decide; [done|]. intros [= <-]. simpl.
  split; [done|set_solver].
Qed.

Lemma ensure_frame d path d' :
  (if existsSync d path then Some d else mkdirSync d path) = Some d' →
  files d' = files d ∧ directories d ⊆ directories d'.
Proof.
  destruct (existsSync d path); [by intros [= <-]|apply mkdirSync_frame].
Qed.

Lemma writeFileSync_frame now d path data d' :
  writeFileSync now d path data = Some d' →
  files d' = <[path := {| content := data; mtimeMs := now |}]> (files d)
  ∧ directories d' = directories d.
Proof.
  unfold writeFileSync. destruct (_ || _); [done|]. by intros [= <-].
Qed.

Lemma unlink_frame d path :
  directories (default d (unlinkSync d path)) = directories d
  ∧ ∀ other, other ≠ path →
      files (default d (unlinkSync d path)) !! other = files d !! other.
Proof.
  unfold unlinkSync. destruct (decide (path ∈ dom (files d))); simpl; [|done].
  split; [done|]. intros other Hother. by apply lookup_delete_ne.
Qed.

Lemma cleanup_frame d hashedLangPath d' :
  cleanup d hashedLangPath = Some d' →
  directories d' = directories d
  ∧ ∀ path,
      (∀ old, has_slash old = false → path ≠ path_join hashedLangPath old) →
      files d' !! path = files d !! path.
Proof.
  unfold cleanup. destruct (existsSync d hashedLangPath); [|by intros [= <-]].
  destruct (readdirSync d hashedLangPath) as [old|] eqn:Hold; [|done].
  apply readdirSync_lists in Hold as (_ & _ & Hold).
  cbn [mbind option_bind]. intros [= <-].
  assert (Hslash : Forall (λ name, has_slash name = false)
                     (filter (λ file, TranslationTypes.is_json file = true) old)).
  { apply Forall_forall. intros name [_ Hin]%list_elem_of_filter.
    by apply Hold in Hin as (_ & ? & _). }
  clear Hold. revert d.
  induction Hslash as [|name names Hname _ IH]; intros d; [done|].
  cbn [foldl]. destruct (IH (default d (unlinkSync d (path_join hashedLangPath name))))
    as (Hdirs & Hfiles).
  destruct (unlink_frame d (path_join hashedLangPath name)) as (Hdirs1 & Hfiles1).
  split; [by rewrite Hdirs|]. intros path Hpath.
  rewrite Hfiles by done. apply Hfiles1. by apply Hpath.
Qed.

Lemma hex_no_slash cs :
  Forall (λ c, MD5.is_hex_digit c = true) cs →
  existsb (Ascii.eqb "/") cs = false.
Proof.
  induction 1 as [|c cs Hc _ IH]; [done|]. cbn [existsb]. rewrite IH.
  destruct (Ascii.eqb_spec "/" c) as [<-|]; [by vm_compute in Hc|done].
Qed.

(** The hash of a file is eight characters without separator. *)
Lemma generateHash_name fs filePath hash :
  generateHash fs filePath = Some hash →
  String.length hash = 8 ∧ has_slash hash = false.
Proof.
  intros Hhash.
  destruct (fs !! filePath) as [file|] eqn:Hfile.
  2:{ unfold generateHash in Hhash. by rewrite Hfile in Hhash. }
  destruct (generateHash_word fs filePath file Hfile) as [word Hword].
  assert (hash = MD5.hex_word word) as -> by congruence.
  split; [apply hex_word_length|].
  apply hex_no_slash, hex_word_is_hex.
Qed.

Lemma behind_slash n : ∀ s,
  has_slash s = false → has_slash (behind n s) = false.
Proof.
  induction n as [|n IH]; intros [|c s] Hs; try done. simpl.
  rewrite has_slash_String in Hs. apply orb_false_iff in Hs as [_ Hs].
  by apply IH.
Qed.

Lemma remove_first_slash pat s :
  has_slash s = false → has_slash (remove_first pat s) = false.
Proof.
  induction s as [|c s IH]; [done|]. intros Hs. cbn [remove_first].
  destruct (String.prefix pat (String c s)); [by apply behind_slash|].
  rewrite has_slash_String in Hs. apply orb_false_iff in Hs as [Hc Hs].
  by rewrite has_slash_String, Hc, IH.
Qed.

(** One file of a language directory. *)
Lemma hash_file_spec now lang langPath hashedLangPath d manifest file d' manifest' :
  hash_file now lang langPath hashedLangPath (d, manifest) file
  = Some (d', manifest') →
  ∃ f hash,
    files d !! path_join langPath file = Some f
    ∧ hash = String.substring 0 8 (MD5.digest_hex (content f))
    ∧ String.length hash = 8 ∧ has_slash hash = false
    ∧ files d'
      = <[path_join hashedLangPath
            (remove_first ".json" file +:+ "." +:+ hash +:+ ".json")
          := {| content := content f; mtimeMs := now |}]> (files d)
    ∧ directories d' = directories d
    ∧ manifest'
      = TranslationTypes.assign
          (lang +:+ "/" +:+ remove_first ".json" file)
          (JS.Str (lang +:+ "/" +:+ remove_first ".json" file
                   +:+ "." +:+ hash +:+ ".json")) manifest.
Proof.
  unfold hash_file.
  destruct (generateHash (files d) (path_join langPath file)) as [hash|] eqn:Hhash;
    [|done].
  cbn [mbind option_bind].
  destruct (generateHash_name _ _ _ Hhash) as (Hlen & Hslash).
  unfold generateHash in Hhash.
  destruct (files d !! path_join langPath file) as [f|] eqn:Hf; [|done].
  simpl in Hhash. injection Hhash as <-.
  unfold copyFileSync. rewrite Hf. cbn [mbind option_bind].
  destruct (writeFileSync now d _ (content f)) as [d1|] eqn:Hwrite; [|done].
  cbn [mbind option_bind]. intros [= <- <-].
  apply writeFileSync_frame in Hwrite as (Hfiles & Hdirs).
  by exists f, (String.substring 0 8 (MD5.digest_hex (content f))).
Qed.

(** The exported manifest holds the entries of [manifest] but
    [_buildTime]. *)
Lemma translationManifest_lookup manifest k v :
  k ≠ "_buildTime" → JS.own k manifest = Some (JS.Str v) →
  translationManifest manifest !! k = Some v.
Proof.
  intros Hk. unfold translationManifest.
  induction manifest as [|[k0 v0] manifest IH]; [done|].
  cbn [JS.own]. rewrite filter_cons. simpl.
  destruct (String.eqb_spec k k0) as [<-|Hne].
  - intros [= ->]. destruct (decide (k ≠ "_buildTime")); [|done]. simpl.
    apply lookup_insert_eq.
  - intros Hown. destruct (decide (k0 ≠ "_buildTime")); [|by apply IH].
    simpl. destruct v0; try (by apply IH).
    simpl. rewrite lookup_insert_ne by done. by apply IH.
Qed.

Section Copies.

Context (now : Z).
Context (localesDir hashedDir : string) (d0 : Disk).
Context (lang file : string) (f : File).

Hypothesis Hdirs : hashedDir ≠ localesDir.
Hypothesis Hlang : has_slash lang = false.
Hypothesis Hfile : files d0 !! path_join (path_join localesDir lang) file = Some f.
Hypothesis Hname : has_slash file = false.
Hypothesis Hjson : TranslationTypes.is_json file = true.
Hypothesis Hunique : ∀ file',
  is_Some (files d0 !! path_join (path_join localesDir lang) file') →
  TranslationTypes.is_json file' = true →
  remove_first ".json" file' = remove_first ".json" file → file' = file.

Let base := remove_first ".json" file.
Let hash := String.substring 0 8 (MD5.digest_hex (content f)).
Let target :=
  path_join (path_join hashedDir lang) (base +:+ "." +:+ hash +:+ ".json").
Let key := lang +:+ "/" +:+ base.
Let value := lang +:+ "/" +:+ base +:+ "." +:+ hash +:+ ".json".

(** The paths the script writes to or removes. *)
Let hashed_area (path : string) : Prop :=
  ∃ lang' name, has_slash lang' = false ∧ has_slash name = false
                ∧ path = path_join (path_join hashedDir lang') name.

(** Outside of them the files are those of the start. *)
Let sources_kept (d : Disk) : Prop :=
  ∀ path, ¬ hashed_area path → files d !! path = files d0 !! path.

(** The copy of the file is in place and the manifest leads to it. *)
Let copied (state : Disk * list (string * JS.value)) : Prop :=
  (∃ copy, files state.1 !! target = Some copy ∧ content copy = content f)
  ∧ JS.own key state.2 = Some (JS.Str value).

Lemma source_not_hashed lang' file' :
  has_slash lang' = false → has_slash file' = false →
  ¬ hashed_area (path_join (path_join localesDir lang') file').
Proof.
  intros Hl Hf (lang2 & name & Hl2 & Hn & Heq).
  apply path_join_inj in Heq as [Heq _]; [|done..].
  apply path_join_inj in Heq as [Heq _]; [|done..]. by apply Hdirs.
Qed.

Lemma hashed_name_slash file' hash' :
  has_slash file' = false → has_slash hash' = false →
  has_slash (remove_first ".json" file' +:+ "." +:+ hash' +:+ ".json") = false.
Proof.
  intros Hf Hh. rewrite !has_slash_append, Hh.
  by rewrite (remove_first_slash ".json" file' Hf).
Qed.

Lemma hash_file_kept lang' d manifest file' d' manifest' :
  has_slash lang' = false → has_slash file' = false →
  sources_kept d →
  hash_file now lang' (path_join localesDir lang') (path_join hashedDir lang')
    (d, manifest) file' = Some (d', manifest') →
  sources_kept d'.
Proof.
  intros Hl Hf Hkept Hstep.
  apply hash_file_spec in Hstep
    as (f' & hash' & _ & _ & _ & Hslash & Hfiles & _).
  intros path Hpath. rewrite Hfiles, lookup_insert_ne; [by apply Hkept|].
  intros <-. apply Hpath. eexists lang', _. split; [done|]. split; [|done].
  by apply hashed_name_slash.
Qed.

Lemma cleanup_kept lang' d d' :
  has_slash lang' = false → sources_kept d →
  cleanup d (path_join hashedDir lang') = Some d' → sources_kept d'.
Proof.
  intros Hl Hkept (_ & Hfiles)%cleanup_frame path Hpath.
  rewrite Hfiles; [by apply Hkept|].
  intros old Hold ->. apply Hpath. by exists lang', old.
Qed.

(** One language directory leaves the sources as they were. *)
Lemma hash_language_kept d manifest lang' d' manifest' :
  has_slash lang' = false → sources_kept d →
  hash_language now localesDir hashedDir (d, manifest) lang' = Some (d', manifest') →
  sources_kept d'.
Proof.
  intros Hl Hkept. unfold hash_language.
  destruct (if existsSync d (path_join hashedDir lang') then Some d
            else mkdirSync d (path_join hashedDir lang')) as [d1|] eqn:Hd1; [|done].
  apply ensure_frame in Hd1 as (Hfiles1 & _). cbn [mbind option_bind].
  destruct (readdirSync d1 (path_join localesDir lang')) as [entries|] eqn:Hentries;
    [|done].
  apply readdirSync_lists in Hentries as (_ & _ & Hentries).
  cbn [mbind option_bind].
  destruct (cleanup d1 (path_join hashedDir lang')) as [d2|] eqn:Hd2; [|done].
  cbn [mbind option_bind]. intros Heach.
  assert (Hkept2 : sources_kept d2).
  { eapply cleanup_kept; [done| |done]. intros path Hpath.
    rewrite Hfiles1. by apply Hkept. }
  refine (each_invariant (λ state, sources_kept state.1) _ _ _
            (d2, manifest) (d', manifest') Hkept2 Heach).
  intros [d3 m3] file' [d4 m4] [_ Hin]%list_elem_of_filter Hkept3 Hstep.
  apply Hentries in Hin as (_ & Hslash & _).
  exact (hash_file_kept lang' d3 m3 file' d4 m4 Hl Hslash Hkept3 Hstep).
Qed.

Lemma hash_name : String.length hash = 8 ∧ has_slash hash = false.
Proof.
  apply (generateHash_name (files d0) (path_join (path_join localesDir lang) file)).
  unfold generateHash. by rewrite Hfile.
Qed.

Lemma target_name_slash :
  has_slash (base +:+ "." +:+ hash +:+ ".json") = false.
Proof. apply hashed_name_slash; [done|apply hash_name]. Qed.

(** Another file of the same language directory leaves the copy and its
    entry in place. *)
Lemma hash_file_other d manifest file' d' manifest' :
  copied (d, manifest) → sources_kept d →
  file' ≠ file → has_slash file' = false →
  TranslationTypes.is_json file' = true →
  hash_file now lang (path_join localesDir lang) (path_join hashedDir lang)
    (d, manifest) file' = Some (d', manifest') →
  copied (d', manifest').
Proof.
  intros [(copy & Hcopy & Hcontent) Hentry] Hkept Hother Hslash' Hjson' Hstep.
  apply hash_file_spec in Hstep
    as (f' & hash' & Hf' & _ & Hlen' & Hhash' & Hfiles & _ & ->).
  assert (Hbase : remove_first ".json" file' ≠ base).
  { intros Hbase. apply Hother, Hunique; [|done..].
    rewrite <- (Hkept _ (source_not_hashed lang file' Hlang Hslash')).
    by eexists. }
  unfold copied. simpl. split.
  - exists copy. split; [|done]. rewrite Hfiles, lookup_insert_ne; [done|].
    intros Heq. apply path_join_inj in Heq as [_ Heq];
      [|by apply hashed_name_slash|apply target_name_slash].
    apply append_inj_length in Heq as [Heq _]; [done|].
    rewrite !length_append, Hlen'. by rewrite (proj1 hash_name).
  - rewrite own_assign.
    destruct (String.eqb_spec key (lang +:+ "/" +:+ remove_first ".json" file'))
      as [Heq|]; [|done].
    unfold key in Heq. by apply append_inj_l, append_inj_l in Heq.
Qed.

(** A file of another language directory does so as well. *)
Lemma hash_file_other_lang lang' d manifest file' d' manifest' :
  copied (d, manifest) →
  lang' ≠ lang → has_slash lang' = false → has_slash file' = false →
  hash_file now lang' (path_join localesDir lang') (path_join hashedDir lang')
    (d, manifest) file' = Some (d', manifest') →
  copied (d', manifest').
Proof.
  intros [(copy & Hcopy & Hcontent) Hentry] Hother Hlang' Hslash' Hstep.
  apply hash_file_spec in Hstep
    as (f' & hash' & Hf' & _ & Hlen' & Hhash' & Hfiles & _ & ->).
  unfold copied. simpl. split.
  - exists copy. split; [|done]. rewrite Hfiles, lookup_insert_ne; [done|].
    intros Heq. apply path_join_inj in Heq as [Heq _];
      [|by apply hashed_name_slash|apply target_name_slash].
    by apply path_join_inj in Heq as [_ Heq].
  - rewrite own_assign.
    destruct (String.eqb_spec key (lang' +:+ "/" +:+ remove_first ".json" file'))
      as [Heq|]; [|done].
    unfold key in Heq. by apply first_slash_inj in Heq as [Heq _].
Qed.

Lemma hash_language_other d manifest lang' d' manifest' :
  copied (d, manifest) → lang' ≠ lang → has_slash lang' = false →
  hash_language now localesDir hashedDir (d, manifest) lang' = Some (d', manifest') →
  copied (d', manifest').
Proof.
  intros [(copy & Hcopy & Hcontent) Hentry] Hother Hlang'. unfold hash_language.
  destruct (if existsSync d (path_join hashedDir lang') then Some d
            else mkdirSync d (path_join hashedDir lang')) as [d1|] eqn:Hd1; [|done].
  apply ensure_frame in Hd1 as (Hfiles1 & _). cbn [mbind option_bind].
  destruct (readdirSync d1 (path_join localesDir lang')) as [entries|] eqn:Hentries;
    [|done].
  apply readdirSync_lists in Hentries as (_ & _ & Hentries).
  cbn [mbind option_bind].
  destruct (cleanup d1 (path_join hashedDir lang')) as [d2|] eqn:Hd2; [|done].
  cbn [mbind option_bind]. intros Heach.
  apply cleanup_frame in Hd2 as (_ & Hfiles2).
  assert (Hcopied2 : copied (d2, manifest)).
  { unfold copied. simpl. split; [|done]. exists copy. split; [|done].
    rewrite Hfiles2, Hfiles1; [done|].
    intros old Hold Heq. apply path_join_inj in Heq as [Heq _];
      [|apply target_name_slash|done].
    by apply path_join_inj in Heq as [_ Heq]. }
  refine (each_invariant copied _ _ _ (d2, manifest) (d', manifest') Hcopied2 Heach).
  intros [d3 m3] file' [d4 m4] [_ Hin]%list_elem_of_filter Hcopied3 Hstep.
  apply Hentries in Hin as (_ & Hslash & _).
  exact (hash_file_other_lang lang' d3 m3 file' d4 m4 Hcopied3 Hother Hlang'
           Hslash Hstep).
Qed.

(** The language directory of the file: its copy is made and its entry
    is written. *)
Lemma hash_language_here d manifest d' manifest' :
  sources_kept d →
  hash_language now localesDir hashedDir (d, manifest) lang = Some (d', manifest') →
  copied (d', manifest').
Proof.
  intros Hkept. unfold hash_language.
  destruct (if existsSync d (path_join hashedDir lang) then Some d
            else mkdirSync d (path_join hashedDir lang)) as [d1|] eqn:Hd1; [|done].
  apply ensure_frame in Hd1 as (Hfiles1 & _). cbn [mbind option_bind].
  destruct (readdirSync d1 (path_join localesDir lang)) as [entries|] eqn:Hentries;
    [|done].
  apply readdirSync_lists in Hentries as (_ & Hnodup & Hentries).
  cbn [mbind option_bind].
  destruct (cleanup d1 (path_join hashedDir lang)) as [d2|] eqn:Hd2; [|done].
  cbn [mbind option_bind]. intros Heach.
  assert (Hkept2 : sources_kept d2).
  { apply (cleanup_kept lang d1 d2 Hlang); [|done]. intros path Hpath.
    rewrite Hfiles1. by apply Hkept. }
  assert (Hsource : files d1 !! path_join (path_join localesDir lang) file = Some f).
  { by rewrite Hfiles1, (Hkept _ (source_not_hashed lang file Hlang Hname)). }
  assert (Hin : file ∈ filter (λ file, TranslationTypes.is_json file = true) entries).
  { apply list_elem_of_filter. split; [done|]. apply Hentries.
    split; [by destruct file|]. split; [done|].
    apply elem_of_union_l, elem_of_dom. by eexists. }
  pose proof (NoDup_filter (λ file, TranslationTypes.is_json file = true) _ Hnodup)
    as Hnodup'.
  apply list_elem_of_split in Hin as (before & after & Hsplit).
  rewrite Hsplit in Hnodup', Heach.
  assert (Hlisted : ∀ file', file' ∈ before ++ file :: after →
                             has_slash file' = false
                             ∧ TranslationTypes.is_json file' = true).
  { intros file'. rewrite <- Hsplit. intros [? Hin]%list_elem_of_filter.
    by apply Hentries in Hin as (_ & ? & _). }
  apply NoDup_app in Hnodup' as (_ & _ & Hnodup').
  apply NoDup_cons in Hnodup' as [Hlater _].
  rewrite each_app in Heach.
  destruct (each _ (d2, manifest) before) as [[d3 m3]|] eqn:Hbefore; [|done].
  cbn [mbind option_bind each] in Heach.
  destruct (hash_file now lang _ _ (d3, m3) file) as [[d4 m4]|] eqn:Hstep; [|done].
  cbn [mbind option_bind] in Heach.
  assert (Hkept3 : sources_kept d3).
  { refine (each_invariant (λ state, sources_kept state.1) _ _ _
              (d2, manifest) (d3, m3) Hkept2 Hbefore).
    intros [d5 m5] file' [d6 m6] Hin' Hkept5 Hstep5.
    destruct (Hlisted file') as [Hslash' _]; [set_solver|].
    exact (hash_file_kept lang d5 m5 file' d6 m6 Hlang Hslash' Hkept5 Hstep5). }
  assert (Hkept4 : sources_kept d4).
  { exact (hash_file_kept lang d3 m3 file d4 m4 Hlang Hname Hkept3 Hstep). }
  assert (Hcopied4 : copied (d4, m4)).
  { apply hash_file_spec in Hstep
      as (f' & hash' & Hf' & -> & _ & _ & Hfiles & _ & ->).
    rewrite (Hkept3 _ (source_not_hashed lang file Hlang Hname)), Hfile in Hf'.
    injection Hf' as <-. unfold copied. simpl. split.
    - eexists. split; [rewrite Hfiles; apply lookup_insert_eq|done].
    - rewrite own_assign. fold base key. by rewrite String.eqb_refl. }
  refine (proj1 (each_invariant (λ state, copied state ∧ sources_kept state.1)
                   _ _ _ (d4, m4) (d', manifest') (conj Hcopied4 Hkept4) Heach)).
  intros [d5 m5] file' [d6 m6] Hin' [Hcopied5 Hkept5] Hstep5.
  destruct (Hlisted file') as [Hslash' Hjson']; [set_solver|].
  split.
  - apply (hash_file_other d5 m5 file' d6 m6 Hcopied5 Hkept5); try done.
    by intros ->.
  - exact (hash_file_kept lang d5 m5 file' d6 m6 Hlang Hslash' Hkept5 Hstep5).
Qed.

(** The loop over the language directories. *)
Lemma languages_copied langs d manifest d' manifest' :
  NoDup langs → Forall (λ lang', has_slash lang' = false) langs →
  lang ∈ langs → sources_kept d →
  each (hash_language now localesDir hashedDir) (d, manifest) langs
  = Some (d', manifest') →
  copied (d', manifest').
Proof.
  intros Hnodup Hslash Hin Hkept Heach.
  apply list_elem_of_split in Hin as (before & after & ->).
  apply NoDup_app in Hnodup as (_ & _ & Hnodup).
  apply NoDup_cons in Hnodup as [Hlater _].
  rewrite Forall_forall in Hslash.
  rewrite each_app in Heach.
  destruct (each _ (d, manifest) before) as [[d1 m1]|] eqn:Hbefore; [|done].
  cbn [mbind option_bind each] in Heach.
  destruct (hash_language now localesDir hashedDir (d1, m1) lang)
    as [[d2 m2]|] eqn:Hstep; [|done].
  cbn [mbind option_bind] in Heach.
  assert (Hkept1 : sources_kept d1).
  { refine (each_invariant (λ state, sources_kept state.1) _ _ _
              (d, manifest) (d1, m1) Hkept Hbefore).
    intros [d3 m3] lang' [d4 m4] Hin' Hkept3 Hstep3.
    refine (hash_language_kept d3 m3 lang' d4 m4 _ Hkept3 Hstep3).
    apply Hslash. set_solver. }
  pose proof (hash_language_here d1 m1 d2 m2 Hkept1 Hstep) as Hcopied2.
  refine (each_invariant copied _ _ _ (d2, m2) (d', manifest') Hcopied2 Heach).
  intros [d3 m3] lang' [d4 m4] Hin' Hcopied3 Hstep3.
  refine (hash_language_other d3 m3 lang' d4 m4 Hcopied3 _ _ Hstep3).
  - by intros ->.
  - apply Hslash. set_solver.
Qed.

(** The whole script. *)
Lemma hashTranslations_copied JSON_stringify buildTime
    manifestPath tsManifestPath d' manifest :
  path_join localesDir lang ∈ directories d0 → lang ≠ EmptyString →
  hashTranslations JSON_stringify now buildTime localesDir hashedDir
    manifestPath tsManifestPath d0 = Some (d', manifest) →
  JS.own key manifest = Some (JS.Str value)
  ∧ translationManifest manifest !! key = Some value
  ∧ (manifestPath ≠ target → tsManifestPath ≠ target →
     ∃ copy, files d' !! target = Some copy ∧ content copy = content f).
Proof.
  intros Hdir Hne. unfold hashTranslations.
  destruct (if existsSync d0 hashedDir then Some d0
            else mkdirSync d0 hashedDir) as [d1|] eqn:Hd1; [|done].
  apply ensure_frame in Hd1 as (Hfiles1 & Hdirs1). cbn [mbind option_bind].
  destruct (readdirSync d1 localesDir) as [items|] eqn:Hitems; [|done].
  apply readdirSync_lists in Hitems as (_ & Hnodup & Hitems).
  cbn [mbind option_bind].
  set (langDirs := filter _ items).
  destruct (each _ (d1, []) langDirs) as [[d2 m2]|] eqn:Heach; [|done].
  cbn [mbind option_bind].
  destruct (writeFileSync now d2 manifestPath _) as [d3|] eqn:Hd3; [|done].
  cbn [mbind option_bind]. unfold generateTSManifest.
  destruct (writeFileSync now d3 tsManifestPath _) as [d4|] eqn:Hd4; [|done].
  cbn [mbind option_bind]. intros [= <- <-].
  apply writeFileSync_frame in Hd3 as (Hfiles3 & _).
  apply writeFileSync_frame in Hd4 as (Hfiles4 & _).
  assert (Hcopied : copied (d2, m2)).
  { apply (languages_copied langDirs d1 [] d2 m2); [| | | |done].
    - by apply NoDup_filter.
    - apply Forall_forall. intros lang' [_ Hin]%list_elem_of_filter.
      by apply Hitems in Hin as (_ & ? & _).
    - apply list_elem_of_filter. split.
      + unfold existsSync, isDirectory.
        rewrite !bool_decide_true; [done|set_solver..].
      + apply Hitems. split; [done|]. split; [done|]. set_solver.
    - intros path _. by rewrite Hfiles1. }
  destruct Hcopied as [(copy & Hcopy & Hcontent) Hentry]. simpl in Hcopy, Hentry.
  assert (Hkey : key ≠ "_buildTime").
  { intros Heq. apply (f_equal has_slash) in Heq. unfold key in Heq.
    assert (Hj : has_slash (lang +:+ "/" +:+ base) = true)
      by apply has_slash_join.
    by rewrite Hj in Heq. }
  assert (Hown : JS.own key
                   (TranslationTypes.assign "_buildTime" (JS.Str buildTime) m2)
                 = Some (JS.Str value)).
  { rewrite own_assign. by destruct (String.eqb_spec key "_buildTime"). }
  split; [done|]. split; [by apply translationManifest_lookup|].
  intros Hmanifest Hts. exists copy. split; [|done].
  by rewrite Hfiles4, lookup_insert_ne, Hfiles3, lookup_insert_ne.
Qed.

End Copies.

(** [.json] does not overlap itself. *)
Lemma json_no_straddle q :
  q ≠ EmptyString → ¬ occurs ".json" q →
  String.prefix ".json" (q +:+ ".json") = false.
Proof.
  intros Hq Hfree.
  destruct (String.prefix ".json" (q +:+ ".json")) eqn:Hpre; [|done].
  exfalso. apply prefix_append in Hpre as [r Hr].
  destruct q as [|c q]; [done|]. next_character Hr.
  do 4 (destruct q as [|c q]; [discriminate Hr|]; next_character Hr).
  apply Hfree. by exists EmptyString, q.
Qed.

Lemma remove_first_suffix ns :
  ¬ occurs ".json" ns → remove_first ".json" (ns +:+ ".json") = ns.
Proof.
  induction ns as [|c ns IH]; intros Hfree; [done|].
  pose proof (json_no_straddle (String c ns) ltac:(done) Hfree) as Hpre.
  rewrite append_String in *. cbn [remove_first]. rewrite Hpre. f_equal.
  apply IH. intros (before & after & ->). apply Hfree.
  by exists (String c before), after.
Qed.

(** When [hashTranslations] returns, every [.json] file of every
    language directory has its copy and its entry: for a file [file] of
    the directory [lang], with [base] what [file.replace('.json', '')]
    gives and [hash] the hash of the file, the manifest maps [lang/base]
    to [lang/base.hash.json], the exported manifest does so too, and
    [hashedDir/lang/base.hash.json] is a file with the content of
    [file].  The locales are not to be hashed into their own directory,
    no other [.json] file of the language directory is to have the same
    [base], and the manifests are not to be written over the copy. *)
Theorem hashTranslations_copies_every_file
    JSON_stringify now buildTime localesDir hashedDir manifestPath tsManifestPath
    d d' manifest lang file f :
  hashTranslations JSON_stringify now buildTime localesDir hashedDir
    manifestPath tsManifestPath d = Some (d', manifest) →
  hashedDir ≠ localesDir →
  path_join localesDir lang ∈ directories d →
  lang ≠ EmptyString → has_slash lang = false →
  files d !! path_join (path_join localesDir lang) file = Some f →
  has_slash file = false → TranslationTypes.is_json file = true →
  (∀ file',
     is_Some (files d !! path_join (path_join localesDir lang) file') →
     TranslationTypes.is_json file' = true →
     remove_first ".json" file' = remove_first ".json" file → file' = file) →
  let base := remove_first ".json" file in
  ∃ hash,
    generateHash (files d) (path_join (path_join localesDir lang) file) = Some hash
    ∧ let hashedFileName := base +:+ "." +:+ hash +:+ ".json" in
      let target := path_join (path_join hashedDir lang) hashedFileName in
      JS.own (lang +:+ "/" +:+ base) manifest
      = Some (JS.Str (lang +:+ "/" +:+ hashedFileName))
      ∧ translationManifest manifest !! (lang +:+ "/" +:+ base)
        = Some (lang +:+ "/" +:+ hashedFileName)
      ∧ (manifestPath ≠ target → tsManifestPath ≠ target →
         ∃ copy, files d' !! target = Some copy ∧ content copy = content f).
Proof.
  intros Hrun Hdirs Hdir Hne Hlang Hfile Hname Hjson Hunique base.
  exists (String.substring 0 8 (MD5.digest_hex (content f))). split.
  { unfold generateHash. by rewrite Hfile. }
  exact (hashTranslations_copied now localesDir hashedDir d lang file f
           Hdirs Hlang Hfile Hname Hjson Hunique JSON_stringify buildTime
           manifestPath tsManifestPath d' manifest Hdir Hne Hrun).
Qed.

(** With the manifest that [hashTranslations] has exported, the provider
    fetches a namespace of a language from the hashed copy of its file:
    for a file [ns.json] of the language directory [lang] (with [ns]
    free of [.json]) the url is
    [localesHashedPath/lang/ns.hash.json], [hash] being the hash of the
    file. *)
Theorem provider_fetches_hashed_copy
    (P : Provider.Props)
    JSON_stringify now buildTime localesDir hashedDir manifestPath tsManifestPath
    d d' manifest lang ns f :
  hashTranslations JSON_stringify now buildTime localesDir hashedDir
    manifestPath tsManifestPath d = Some (d', manifest) →
  Provider.translationManifest P = translationManifest manifest →
  hashedDir ≠ localesDir →
  path_join localesDir lang ∈ directories d →
  lang ≠ EmptyString → has_slash lang = false →
  files d !! path_join (path_join localesDir lang) (ns +:+ ".json") = Some f →
  has_slash ns = false → ¬ occurs ".json" ns →
  (∀ file',
     is_Some (files d !! path_join (path_join localesDir lang) file') →
     TranslationTypes.is_json file' = true →
     remove_first ".json" file' = ns → file' = ns +:+ ".json") →
  ∃ hash,
    generateHash (files d)
      (path_join (path_join localesDir lang) (ns +:+ ".json")) = Some hash
    ∧ Provider.fetch_url P lang ns
      = Provider.localesHashedPath P +:+ "/" +:+ lang +:+ "/" +:+ ns
        +:+ "." +:+ hash +:+ ".json".
Proof.
  intros Hrun Hmanifest Hdirs Hdir Hne Hlang Hfile Hns Hfree Hunique.
  exists (String.substring 0 8 (MD5.digest_hex (content f))). split.
  { unfold generateHash. by rewrite Hfile. }
  assert (Hname : has_slash (ns +:+ ".json") = false).
  { by rewrite has_slash_append, Hns. }
  assert (Hunique' : ∀ file',
    is_Some (files d !! path_join (path_join localesDir lang) file') →
    TranslationTypes.is_json file' = true →
    remove_first ".json" file' = remove_first ".json" (ns +:+ ".json") →
    file' = ns +:+ ".json").
  { intros file' Hfile' Hjson'. rewrite (remove_first_suffix ns Hfree).
    by apply Hunique. }
  destruct (hashTranslations_copied now localesDir hashedDir d lang
              (ns +:+ ".json") f Hdirs Hlang Hfile Hname
              (is_json_append ns) Hunique'
              JSON_stringify buildTime manifestPath tsManifestPath d' manifest
              Hdir Hne Hrun) as (_ & Hentry & _).
  rewrite (remove_first_suffix ns Hfree) in Hentry.
  unfold Provider.fetch_url. rewrite Hmanifest, Hentry.
  destruct (String.eqb_spec
              (lang +:+ "/" +:+ ns +:+ "." +:+
               String.substring 0 8 (MD5.digest_hex (content f)) +:+ ".json")
              "") as [Heq|]; [|done].
  apply (f_equal String.length) in Heq. rewrite !length_append in Heq.
  simpl in Heq. lia.
Qed.

(** The files of a disk given in full: which of them [Hsome] is. *)
Ltac file_of Hsome :=
  apply elem_of_dom, elem_of_elements in Hsome;
  let l := eval vm_compute in (elements (dom (files Site.site))) in
  change (elements (dom (files Site.site))) with l in Hsome;
  unfold path_join in Hsome;
  repeat (apply elem_of_cons in Hsome as [Hsome|Hsome];
          [heads Hsome; try discriminate Hsome|]);
  try (by apply elem_of_nil in Hsome).

Lemma site_hashed :
  hashTranslations (λ _, "{}") 3000 "2025-01-15T00:00:00.000Z"
    "/app/public/locales" "/app/public/locales-hashed"
    "/app/public/locales-hashed/manifest.json"
    "/app/src/translations/translationManifest.ts" Site.site
  = Some (Site.outcome.1, Site.outcome.2).
Proof. vm_compute. reflexivity. Qed.

Lemma site_one_file file' :
  is_Some (files Site.site
           !! path_join (path_join "/app/public/locales" "es") file') →
  file' = "common.json".
Proof. intros Hsome. file_of Hsome. by simplify_eq. Qed.

Lemma hashTranslations_copies_every_file_witness :
  JS.own "es/common" Site.outcome.2 = Some (JS.Str "es/common.7247589a.json")
  ∧ ∃ copy,
      files Site.outcome.1 !! "/app/public/locales-hashed/es/common.7247589a.json"
      = Some copy
      ∧ content copy = Sample.greeting "4".
Proof.
  destruct (hashTranslations_copies_every_file _ _ _ _ _ _ _ _ _ _
              "es" "common.json"
              {| content := Sample.greeting "4"; mtimeMs := 2000 |} site_hashed)
    as (hash & Hhash & Hentry & _ & Hcopy).
  - discriminate.
  - by vm_compute.
  - discriminate.
  - reflexivity.
  - vm_compute. reflexivity.
  - reflexivity.
  - reflexivity.
  - intros file' Hsome _ _. by apply site_one_file.
  - vm_compute in Hhash. injection Hhash as <-.
    split; [exact Hentry|]. apply Hcopy; discriminate.
Defined.

Lemma provider_fetches_hashed_copy_witness :
  Provider.fetch_url (Sample.app (translationManifest Site.outcome.2)) "es" "common"
  = "/locales-hashed/es/common.7247589a.json".
Proof.
  destruct (provider_fetches_hashed_copy
              (Sample.app (translationManifest Site.outcome.2))
              _ _ _ _ _ _ _ _ _ _ "es" "common"
              {| content := Sample.greeting "4"; mtimeMs := 2000 |} site_hashed)
    as (hash & Hhash & Hurl).
  - reflexivity.
  - discriminate.
  - by vm_compute.
  - discriminate.
  - reflexivity.
  - vm_compute. reflexivity.
  - reflexivity.
  - intros (before & after & Heq).
    do 2 (destruct before as [|? before]; [heads Heq; discriminate Heq|]).
    apply (f_equal String.length) in Heq.
    rewrite !append_String in Heq. simpl in Heq.
    rewrite !length_append in Heq. simpl in Heq. lia.
  - intros file' Hsome _ _. by apply site_one_file.
  - vm_compute in Hhash. injection Hhash as <-. exact Hurl.
Defined.

End HashedCopiesFacts.

(** ** Directories that hold no translation file *)

Module GeneratorEdges.

Import TranslationTypes StringFacts GeneratorFacts.

Section Bundle.

Context (JSON_parse : string → option JS.value).
Context (JSON_stringify : JS.value → string).
Context (dir : gmap string string).


End Bundle.


End GeneratorEdges.

(** ** The hashed directory *)


Module HashedDirectoryFacts.

Import Helpers HashTranslations Fs HashedCopies StringFacts HelpersFacts PathFacts.
Import GeneratorFacts HashFacts HashedCopiesFacts.

Lemma ensure_exists d path d' :
  (if existsSync d path then Some d else mkdirSync d path) = Some d' →
  existsSync d' path = true.
Proof.
  destruct (existsSync d path) eqn:Hexists; [by intros [= <-]|].
  unfold mkdirSync. case_bool_decide; [done|]. intros [= <-].
  unfold existsSync. apply bool_decide_eq_true. simpl.
  apply elem_of_union_r, elem_of_union_r, elem_of_list_to_set, elem_of_app.
  right. apply list_elem_of_here.
Qed.

(** The script changes files in the hashed language directories and
    nowhere else, and removes no directory. *)
Lemma hashTranslations_frame JSON_stringify now buildTime
    localesDir hashedDir manifestPath tsManifestPath d d' manifest path :
  hashTranslations JSON_stringify now buildTime localesDir hashedDir
    manifestPath tsManifestPath d = Some (d', manifest) →
  path ≠ manifestPath → path ≠ tsManifestPath →
  ¬ (∃ lang name, has_slash lang = false ∧ has_slash name = false
                  ∧ path = path_join (path_join hashedDir lang) name) →
  files d' !! path = files d !! path.
Proof.
  unfold hashTranslations.
  destruct (if existsSync d hashedDir then Some d
            else mkdirSync d hashedDir) as [d1|] eqn:Hd1; [|done].
  apply ensure_frame in Hd1 as (Hfiles1 & Hdirs1). cbn [mbind option_bind].
  destruct (readdirSync d1 localesDir) as [items|] eqn:Hitems; [|done].
  apply readdirSync_lists in Hitems as (_ & Hnodup & Hitems).
  cbn [mbind option_bind].
  set (langDirs := filter _ items).
  destruct (each _ (d1, []) langDirs) as [[d2 m2]|] eqn:Heach; [|done].
  cbn [mbind option_bind].
  destruct (writeFileSync now d2 manifestPath _) as [d3|] eqn:Hd3; [|done].
  cbn [mbind option_bind]. unfold generateTSManifest.
  destruct (writeFileSync now d3 tsManifestPath _) as [d4|] eqn:Hd4; [|done].
  cbn [mbind option_bind]. intros [= <- <-] Hmanifest Hts Hpath.
  apply writeFileSync_frame in Hd3 as (Hfiles3 & _).
  apply writeFileSync_frame in Hd4 as (Hfiles4 & _).
  rewrite Hfiles4, lookup_insert_ne, Hfiles3, lookup_insert_ne by done.
  refine (each_invariant
            (λ state, ∀ path,
               ¬ (∃ lang name, has_slash lang = false ∧ has_slash name = false
                               ∧ path = path_join (path_join hashedDir lang) name) →
               files state.1 !! path = files d !! path)
            _ _ _ (d1, []) (d2, m2) _ Heach path Hpath).
  - intros [d5 m5] lang' [d6 m6] [_ Hin]%list_elem_of_filter Hkept Hstep.
    apply Hitems in Hin as (_ & Hslash & _).
    exact (hash_language_kept now localesDir hashedDir d d5 m5 lang' d6 m6
             Hslash Hkept Hstep).
  - intros path' _. simpl. by rewrite Hfiles1.
Qed.

Lemma hash_language_directories now localesDir hashedDir d manifest lang d' manifest' :
  hash_language now localesDir hashedDir (d, manifest) lang = Some (d', manifest') →
  directories d ⊆ directories d'.
Proof.
  unfold hash_language.
  destruct (if existsSync d (path_join hashedDir lang) then Some d
            else mkdirSync d (path_join hashedDir lang)) as [d1|] eqn:Hd1; [|done].
  apply ensure_frame in Hd1 as (_ & Hdirs1). cbn [mbind option_bind].
  destruct (readdirSync d1 (path_join localesDir lang)) as [entries|]; [|done].
  cbn [mbind option_bind].
  destruct (cleanup d1 (path_join hashedDir lang)) as [d2|] eqn:Hd2; [|done].
  cbn [mbind option_bind]. intros Heach.
  apply cleanup_frame in Hd2 as (Hdirs2 & _).
  refine (each_invariant (λ state, directories d ⊆ directories state.1)
            _ _ _ (d2, manifest) (d', manifest') _ Heach).
  - intros [d3 m3] file [d4 m4] _ Hsub Hstep.
    apply hash_file_spec in Hstep as (_ & _ & _ & _ & _ & _ & _ & Hdirs & _).
    simpl in *. by rewrite Hdirs.
  - simpl. by rewrite Hdirs2.
Qed.

(** When [hashTranslations] returns, it has changed no file but those
    directly in a directory [hashedDir/lang] and the two manifests, and
    it has removed no directory; the translation files under
    [localesDir] in particular are as they were, unless they are hashed
    into their own directory. *)
Theorem hashTranslations_touches_only_hashed_files
    JSON_stringify now buildTime localesDir hashedDir manifestPath tsManifestPath
    d d' manifest :
  hashTranslations JSON_stringify now buildTime localesDir hashedDir
    manifestPath tsManifestPath d = Some (d', manifest) →
  (∀ path,
     path ≠ manifestPath → path ≠ tsManifestPath →
     ¬ (∃ lang name, has_slash lang = false ∧ has_slash name = false
                     ∧ path = path_join (path_join hashedDir lang) name) →
     files d' !! path = files d !! path)
  ∧ directories d ⊆ directories d'
  ∧ (hashedDir ≠ localesDir →
     ∀ lang file,
       has_slash lang = false → has_slash file = false →
       path_join (path_join localesDir lang) file ≠ manifestPath →
       path_join (path_join localesDir lang) file ≠ tsManifestPath →
       files d' !! path_join (path_join localesDir lang) file
       = files d !! path_join (path_join localesDir lang) file).
Proof.
  intros Hrun. split; [|split].
  - intros path. by apply (hashTranslations_frame _ _ _ _ _ _ _ _ _ _ _ Hrun).
  - revert Hrun. unfold hashTranslations.
    destruct (if existsSync d hashedDir then Some d
              else mkdirSync d hashedDir) as [d1|] eqn:Hd1; [|done].
    apply ensure_frame in Hd1 as (_ & Hdirs1). cbn [mbind option_bind].
    destruct (readdirSync d1 localesDir) as [items|]; [|done].
    cbn [mbind option_bind].
    set (langDirs := filter _ items).
    destruct (each _ (d1, []) langDirs) as [[d2 m2]|] eqn:Heach; [|done].
    cbn [mbind option_bind].
    destruct (writeFileSync now d2 manifestPath _) as [d3|] eqn:Hd3; [|done].
    cbn [mbind option_bind]. unfold generateTSManifest.
    destruct (writeFileSync now d3 tsManifestPath _) as [d4|] eqn:Hd4; [|done].
    cbn [mbind option_bind]. intros [= <- <-].
    apply writeFileSync_frame in Hd3 as (_ & Hdirs3).
    apply writeFileSync_frame in Hd4 as (_ & Hdirs4).
    rewrite Hdirs4, Hdirs3.
    refine (each_invariant (λ state, directories d ⊆ directories state.1)
              _ _ _ (d1, []) (d2, m2) Hdirs1 Heach).
    intros [d5 m5] lang [d6 m6] _ Hsub Hstep. simpl in *.
    etrans; [exact Hsub|]. by eapply hash_language_directories.
  - intros Hdirs lang file Hlang Hfile Hmanifest Hts.
    apply (hashTranslations_frame _ _ _ _ _ _ _ _ _ _ _ Hrun); [done..|].
    intros (lang' & name & Hlang' & Hname & Heq).
    apply path_join_inj in Heq as [Heq _]; [|done..].
    apply path_join_inj in Heq as [Heq _]; [|done..]. by apply Hdirs.
Qed.

Section Stale.

Context (now : Z).
Context (localesDir hashedDir : string) (d0 : Disk).
Context (lang name : string).

Hypothesis Hdirs : hashedDir ≠ localesDir.
Hypothesis Hlang : has_slash lang = false.
Hypothesis Hname : has_slash name = false.
Hypothesis Hjson : TranslationTypes.is_json name = true.

Let place := path_join (path_join hashedDir lang) name.

(** A file that is the copy of a translation file of the language. *)
Let fresh (x : File) : Prop :=
  ∃ file f,
    files d0 !! path_join (path_join localesDir lang) file = Some f
    ∧ TranslationTypes.is_json file = true
    ∧ name = remove_first ".json" file +:+ "."
             +:+ String.substring 0 8 (MD5.digest_hex (content f)) +:+ ".json"
    ∧ content x = content f.

Let clean (d : Disk) : Prop :=
  ∀ x, files d !! place = Some x → fresh x.

Let kept (d : Disk) : Prop :=
  ∀ path,
    ¬ (∃ lang' name', has_slash lang' = false ∧ has_slash name' = false
                      ∧ path = path_join (path_join hashedDir lang') name') →
    files d !! path = files d0 !! path.

Lemma unlink_all names : ∀ d,
  Forall (λ old, has_slash old = false) names →
  name ∈ names ∨ files d !! place = None →
  files (foldl (λ d old,
                  default d (unlinkSync d (path_join (path_join hashedDir lang) old)))
               d names) !! place = None.
Proof.
  induction names as [|old names IH]; intros d Hslash Hcases.
  { destruct Hcases as [Hin|Hnone]; [by apply elem_of_nil in Hin|done]. }
  apply Forall_cons in Hslash as [Hold Hslash]. cbn [foldl].
  apply IH; [done|].
  destruct (unlink_frame d (path_join (path_join hashedDir lang) old))
    as (_ & Hother).
  destruct (decide (old = name)) as [->|Hne].
  - right. fold place. unfold unlinkSync.
    destruct (decide (place ∈ dom (files d))) as [Hin|Hout]; simpl.
    + apply lookup_delete_eq.
    + by apply not_elem_of_dom.
  - destruct Hcases as [Hin|Hnone].
    + left. by apply elem_of_cons in Hin as [->|Hin].
    + right. rewrite Hother; [done|].
      intros Heq. by apply path_join_inj in Heq as [_ Heq].
Qed.

(** The old hashed files of the language are gone after the cleanup. *)
Lemma cleanup_removes d d' :
  existsSync d (path_join hashedDir lang) = true →
  cleanup d (path_join hashedDir lang) = Some d' →
  files d' !! place = None.
Proof.
  intros Hexists. unfold cleanup. rewrite Hexists.
  destruct (readdirSync d (path_join hashedDir lang)) as [old|] eqn:Hold; [|done].
  apply readdirSync_lists in Hold as (_ & _ & Hold).
  cbn [mbind option_bind]. intros [= <-]. apply unlink_all.
  - apply Forall_forall. intros old' [_ Hin]%list_elem_of_filter.
    by apply Hold in Hin as (_ & ? & _).
  - destruct (files d !! place) as [x|] eqn:Hx; [|by right]. left.
    apply list_elem_of_filter. split; [done|]. apply Hold.
    split; [by destruct name|]. split; [done|].
    apply elem_of_union_l, elem_of_dom. by eexists.
Qed.

Lemma hash_file_clean d manifest file d' manifest' :
  kept d → clean d → has_slash file = false →
  TranslationTypes.is_json file = true →
  hash_file now lang (path_join localesDir lang) (path_join hashedDir lang)
    (d, manifest) file = Some (d', manifest') →
  clean d'.
Proof.
  intros Hkept Hclean Hfile Hfjson Hstep x.
  apply hash_file_spec in Hstep
    as (f & hash & Hf & -> & _ & Hhash & Hfiles & _).
  rewrite Hfiles. unfold place.
  destruct (decide (path_join (path_join hashedDir lang)
                      (remove_first ".json" file +:+ "."
                       +:+ String.substring 0 8 (MD5.digest_hex (content f))
                       +:+ ".json")
                    = path_join (path_join hashedDir lang) name)) as [Heq|Hne].
  - rewrite Heq, lookup_insert_eq. intros [= <-].
    apply path_join_inj in Heq as [_ Heq];
      [|by apply hashed_name_slash|done].
    exists file, f. split; [|done].
    rewrite <- Hkept; [done|].
    intros (lang' & name' & Hlang' & Hname' & Heq').
    apply path_join_inj in Heq' as [Heq' _]; [|done..].
    apply path_join_inj in Heq' as [Heq' _]; [|done..]. by apply Hdirs.
  - rewrite lookup_insert_ne by done. apply Hclean.
Qed.

(** In the language directory itself, what is left at [place] is a copy
    made in this run. *)
Lemma hash_language_clean d manifest d' manifest' :
  kept d →
  hash_language now localesDir hashedDir (d, manifest) lang = Some (d', manifest') →
  clean d'.
Proof.
  intros Hkept. unfold hash_language.
  destruct (if existsSync d (path_join hashedDir lang) then Some d
            else mkdirSync d (path_join hashedDir lang)) as [d1|] eqn:Hd1; [|done].
  pose proof (ensure_exists _ _ _ Hd1) as Hexists.
  apply ensure_frame in Hd1 as (Hfiles1 & _). cbn [mbind option_bind].
  destruct (readdirSync d1 (path_join localesDir lang)) as [entries|] eqn:Hentries;
    [|done].
  apply readdirSync_lists in Hentries as (_ & _ & Hentries).
  cbn [mbind option_bind].
  destruct (cleanup d1 (path_join hashedDir lang)) as [d2|] eqn:Hd2; [|done].
  cbn [mbind option_bind]. intros Heach.
  assert (Hclean2 : clean d2).
  { intros x. by rewrite (cleanup_removes d1 d2 Hexists Hd2). }
  assert (Hkept2 : kept d2).
  { refine (cleanup_kept hashedDir d0 lang d1 d2 Hlang _ Hd2).
    intros path Hpath. rewrite Hfiles1. by apply Hkept. }
  refine (proj1 (each_invariant (λ state, clean state.1 ∧ kept state.1)
                   _ _ _ (d2, manifest) (d', manifest') (conj Hclean2 Hkept2) Heach)).
  intros [d3 m3] file [d4 m4] [Hfjson Hin]%list_elem_of_filter [Hclean3 Hkept3] Hstep.
  apply Hentries in Hin as (_ & Hslash & _). simpl in *. split.
  - by apply (hash_file_clean d3 m3 file d4 m4).
  - exact (hash_file_kept now localesDir hashedDir d0 lang d3 m3 file d4 m4
             Hlang Hslash Hkept3 Hstep).
Qed.

(** Another language directory leaves [place] alone. *)
Lemma hash_language_elsewhere d manifest lang' d' manifest' :
  lang' ≠ lang → has_slash lang' = false →
  hash_language now localesDir hashedDir (d, manifest) lang' = Some (d', manifest') →
  files d' !! place = files d !! place.
Proof.
  intros Hother Hlang'. unfold hash_language.
  destruct (if existsSync d (path_join hashedDir lang') then Some d
            else mkdirSync d (path_join hashedDir lang')) as [d1|] eqn:Hd1; [|done].
  apply ensure_frame in Hd1 as (Hfiles1 & _). cbn [mbind option_bind].
  destruct (readdirSync d1 (path_join localesDir lang')) as [entries|] eqn:Hentries;
    [|done].
  apply readdirSync_lists in Hentries as (_ & _ & Hentries).
  cbn [mbind option_bind].
  destruct (cleanup d1 (path_join hashedDir lang')) as [d2|] eqn:Hd2; [|done].
  cbn [mbind option_bind]. intros Heach.
  apply cleanup_frame in Hd2 as (_ & Hfiles2).
  assert (Hsame2 : files d2 !! place = files d !! place).
  { rewrite Hfiles2, Hfiles1; [done|].
    intros old Hold Heq. apply path_join_inj in Heq as [Heq _]; [|done..].
    by apply path_join_inj in Heq as [_ Heq]. }
  refine (each_invariant (λ state, files state.1 !! place = files d !! place)
            _ _ _ (d2, manifest) (d', manifest') Hsame2 Heach).
  intros [d3 m3] file [d4 m4] [_ Hin]%list_elem_of_filter Hsame3 Hstep.
  apply Hentries in Hin as (_ & Hslash & _).
  apply hash_file_spec in Hstep
    as (f & hash & _ & _ & _ & Hhash & Hfiles & _).
  simpl in *. rewrite Hfiles, lookup_insert_ne; [done|].
  intros Heq. apply path_join_inj in Heq as [Heq _];
    [|by apply hashed_name_slash|done].
  by apply path_join_inj in Heq as [_ Heq].
Qed.

Lemma languages_clean langs d manifest d' manifest' :
  NoDup langs → Forall (λ lang', has_slash lang' = false) langs →
  lang ∈ langs → kept d →
  each (hash_language now localesDir hashedDir) (d, manifest) langs
  = Some (d', manifest') →
  clean d'.
Proof.
  intros Hnodup Hslash Hin Hkept Heach.
  apply list_elem_of_split in Hin as (before & after & ->).
  apply NoDup_app in Hnodup as (_ & _ & Hnodup).
  apply NoDup_cons in Hnodup as [Hlater _].
  rewrite Forall_forall in Hslash.
  rewrite each_app in Heach.
  destruct (each _ (d, manifest) before) as [[d1 m1]|] eqn:Hbefore; [|done].
  cbn [mbind option_bind each] in Heach.
  destruct (hash_language now localesDir hashedDir (d1, m1) lang)
    as [[d2 m2]|] eqn:Hstep; [|done].
  cbn [mbind option_bind] in Heach.
  assert (Hkept1 : kept d1).
  { refine (each_invariant (λ state, kept state.1) _ _ _
              (d, manifest) (d1, m1) Hkept Hbefore).
    intros [d3 m3] lang' [d4 m4] Hin' Hkept3 Hstep3.
    refine (hash_language_kept now localesDir hashedDir d0 d3 m3 lang' d4 m4
              _ Hkept3 Hstep3).
    apply Hslash. set_solver. }
  pose proof (hash_language_clean d1 m1 d2 m2 Hkept1 Hstep) as Hclean2.
  refine (each_invariant (λ state, clean state.1) _ _ _
            (d2, m2) (d', manifest') Hclean2 Heach).
  intros [d3 m3] lang' [d4 m4] Hin' Hclean3 Hstep3 x. simpl in *.
  rewrite (hash_language_elsewhere d3 m3 lang' d4 m4); [apply Hclean3| | |done].
  - by intros ->.
  - apply Hslash. set_solver.
Qed.

Lemma hashTranslations_clean JSON_stringify buildTime
    manifestPath tsManifestPath d' manifest x :
  path_join localesDir lang ∈ directories d0 → lang ≠ EmptyString →
  hashTranslations JSON_stringify now buildTime localesDir hashedDir
    manifestPath tsManifestPath d0 = Some (d', manifest) →
  manifestPath ≠ place → tsManifestPath ≠ place →
  files d' !! place = Some x → fresh x.
Proof.
  intros Hdir Hne. unfold hashTranslations.
  destruct (if existsSync d0 hashedDir then Some d0
            else mkdirSync d0 hashedDir) as [d1|] eqn:Hd1; [|done].
  apply ensure_frame in Hd1 as (Hfiles1 & Hdirs1). cbn [mbind option_bind].
  destruct (readdirSync d1 localesDir) as [items|] eqn:Hitems; [|done].
  apply readdirSync_lists in Hitems as (_ & Hnodup & Hitems).
  cbn [mbind option_bind].
  set (langDirs := filter _ items).
  destruct (each _ (d1, []) langDirs) as [[d2 m2]|] eqn:Heach; [|done].
  cbn [mbind option_bind].
  destruct (writeFileSync now d2 manifestPath _) as [d3|] eqn:Hd3; [|done].
  cbn [mbind option_bind]. unfold generateTSManifest.
  destruct (writeFileSync now d3 tsManifestPath _) as [d4|] eqn:Hd4; [|done].
  cbn [mbind option_bind]. intros [= <- <-] Hmanifest Hts.
  apply writeFileSync_frame in Hd3 as (Hfiles3 & _).
  apply writeFileSync_frame in Hd4 as (Hfiles4 & _).
  rewrite Hfiles4, lookup_insert_ne, Hfiles3, lookup_insert_ne by done.
  apply (languages_clean langDirs d1 [] d2 m2); [| | | |done].
  - by apply NoDup_filter.
  - apply Forall_forall. intros lang' [_ Hin]%list_elem_of_filter.
    by apply Hitems in Hin as (_ & ? & _).
  - apply list_elem_of_filter. split.
    + unfold existsSync, isDirectory.
      rewrite !bool_decide_true; [done|set_solver..].
    + apply Hitems. split; [done|]. split; [done|]. set_solver.
  - intros path _. by rewrite Hfiles1.
Qed.

End Stale.

(** When [hashTranslations] returns, no hashed file of an earlier run is
    left in the directory of a language: a [.json] file directly in
    [hashedDir/lang], for a language directory [lang] of [localesDir], is
    the copy, made in this run and named by base and hash, of a [.json]
    file of [localesDir/lang] (unless it is one of the two manifests). *)
Theorem hashTranslations_leaves_no_stale_file
    JSON_stringify now buildTime localesDir hashedDir manifestPath tsManifestPath
    d d' manifest lang name x :
  hashTranslations JSON_stringify now buildTime localesDir hashedDir
    manifestPath tsManifestPath d = Some (d', manifest) →
  hashedDir ≠ localesDir →
  path_join localesDir lang ∈ directories d →
  lang ≠ EmptyString → has_slash lang = false →
  has_slash name = false → TranslationTypes.is_json name = true →
  manifestPath ≠ path_join (path_join hashedDir lang) name →
  tsManifestPath ≠ path_join (path_join hashedDir lang) name →
  files d' !! path_join (path_join hashedDir lang) name = Some x →
  ∃ file f hash,
    files d !! path_join (path_join localesDir lang) file = Some f
    ∧ TranslationTypes.is_json file = true
    ∧ generateHash (files d) (path_join (path_join localesDir lang) file)
      = Some hash
    ∧ name = remove_first ".json" file +:+ "." +:+ hash +:+ ".json"
    ∧ content x = content f.
Proof.
  intros Hrun Hdirs Hdir Hne Hlang Hname Hjson Hmanifest Hts Hx.
  destruct (hashTranslations_clean now localesDir hashedDir d lang name
              Hdirs Hlang Hname Hjson JSON_stringify buildTime
              manifestPath tsManifestPath d' manifest x Hdir Hne Hrun
              Hmanifest Hts Hx)
    as (file & f & Hfile & Hfjson & Hfname & Hcontent).
  exists file, f, (String.substring 0 8 (MD5.digest_hex (content f))).
  split; [done|]. split; [done|]. split; [|done].
  unfold generateHash. by rewrite Hfile.
Qed.

Lemma hashTranslations_touches_only_hashed_files_witness :
  files Site.outcome.1 !! "/app/public/locales/es/common.json"
  = files Site.site !! "/app/public/locales/es/common.json"
  ∧ directories Site.site ⊆ directories Site.outcome.1.
Proof.
  destruct (hashTranslations_touches_only_hashed_files _ _ _ _ _ _ _ _ _ _
              site_hashed) as (_ & Hdirs & Hsources).
  split; [|exact Hdirs].
  apply (Hsources ltac:(discriminate) "es" "common.json");
    reflexivity || discriminate.
Defined.

Lemma hashTranslations_leaves_no_stale_file_witness :
  ∃ file f hash,
    files Site.site !! path_join (path_join "/app/public/locales" "es") file
    = Some f
    ∧ TranslationTypes.is_json file = true
    ∧ generateHash (files Site.site)
        (path_join (path_join "/app/public/locales" "es") file) = Some hash
    ∧ "common.7247589a.json" = remove_first ".json" file +:+ "." +:+ hash +:+ ".json"
    ∧ Sample.greeting "4" = content f.
Proof.
  refine (hashTranslations_leaves_no_stale_file _ _ _ _ _ _ _ _ _ _
            "es" "common.7247589a.json"
            {| content := Sample.greeting "4"; mtimeMs := 3000 |}
            site_hashed _ _ _ _ _ _ _ _ _).
  - discriminate.
  - by vm_compute.
  - discriminate.
  - reflexivity.
  - reflexivity.
  - reflexivity.
  - discriminate.
  - discriminate.
  - vm_compute. reflexivity.
Defined.

(** The hashed file of the earlier run is gone, the new copies are
    there. *)
Example site_hashed_directory :
  files Site.outcome.1 !! "/app/public/locales-hashed/es/common.00000000.json"
  = None
  ∧ content <$> files Site.outcome.1
                !! "/app/public/locales-hashed/es/common.7247589a.json"
    = Some (Sample.greeting "4")
  ∧ Site.outcome.2
    = [("es/common", JS.Str "es/common.7247589a.json");
       ("en/common", JS.Str "en/common.8f220914.json");
       ("_buildTime", JS.Str "2025-01-15T00:00:00.000Z")].
Proof. by vm_compute. Qed.

(** For a file [ns.json] whose [ns] holds no [.json], the two scripts
    agree on the name of the namespace: the generators of the types and
    of the default bundle take [path.basename(file, '.json')], the hash
    script takes [file.replace('.json', '')] for the keys of the
    manifest, and both are [ns]. *)
Theorem scripts_agree_on_namespace ns :
  ¬ occurs ".json" ns →
  remove_first ".json" (ns +:+ ".json") = ns
  ∧ TranslationTypes.basename_json (ns +:+ ".json") = ns
  ∧ TranslationTypes.is_json (ns +:+ ".json") = true.
Proof.
  intros Hfree. split; [by apply remove_first_suffix|].
  split; [apply basename_json_append|apply is_json_append].
Qed.

Lemma scripts_agree_on_namespace_witness :
  remove_first ".json" "common.json" = "common"
  ∧ TranslationTypes.basename_json "common.json" = "common".
Proof.
  destruct (scripts_agree_on_namespace "common") as (Hhash & Htypes & _).
  - intros (before & after & Heq).
    do 2 (destruct before as [|? before]; [heads Heq; discriminate Heq|]).
    apply (f_equal String.length) in Heq.
    rewrite !append_String in Heq. simpl in Heq.
    rewrite !length_append in Heq. simpl in Heq. lia.
  - split; [exact Hhash|exact Htypes].
Defined.

(** With another [.json] inside the name they differ. *)
Example scripts_disagree :
  remove_first ".json" "a.jsonb.json" = "ab.json"
  ∧ TranslationTypes.basename_json "a.jsonb.json" = "a.jsonb".
Proof. by vm_compute. Qed.

End HashedDirectoryFacts.
